(** * Cageify: the image-replacing content script, in two variants

    A shallow embedding of [cagify/src/content.ts] (the procedural content
    script, module [Content]) and of the class-based variant (class
    [Cageify], module [Cageify]), over a small model of the part of the DOM
    the two scripts use: a node tree, the [src] and [srcset] properties of
    its nodes, the console, [Math.random] and a [MutationObserver] with its
    record queue. *)

From Stdlib Require Import ZArith Lia.
From stdpp Require Import base option list gmap strings pretty.

Local Open Scope Z_scope.

(** ** JavaScript values and completions *)

(** The values the scripts move around: a string, or [undefined] (what an
    array read out of range gives). *)
Inductive value : Type :=
  | VUndefined
  | VString (s : string).

(** What a [throw] carries: an [Error] instance with its [message], or any
    other value. *)
Inductive thrown : Type :=
  | ErrorObject (message : string)
  | ThrownValue (v : value).

Inductive completion (A : Type) : Type :=
  | Normal (a : A)
  | Throw (e : thrown).
Arguments Normal {A} a.
Arguments Throw {A} e.

(** ** The document tree *)

(** A node: its identity, [nodeName], [nodeType] and children. The scripts
    never change the shape of the tree, only properties of its nodes, which
    live in the store of the [World] below, keyed by [nodeId]. *)
#[warnings="-register-all"] Inductive Node : Type :=
  mkNode { nodeId : nat; nodeName : string; nodeType : Z; childNodes : list Node }.

Definition ELEMENT_NODE : Z := 1.
Definition TEXT_NODE : Z := 3.
Definition PROCESSING_INSTRUCTION_NODE : Z := 7.
Definition COMMENT_NODE : Z := 8.

(** The node and its descendants, in document (pre-)order. *)
Fixpoint inclusive_descendants (n : Node) : list Node :=
  match n with
  | mkNode _ _ _ cs => n :: flat_map inclusive_descendants cs
  end.

Definition descendants (n : Node) : list Node :=
  flat_map inclusive_descendants (childNodes n).

Definition upper_ascii (c : Ascii.ascii) : Ascii.ascii :=
  let k := Ascii.nat_of_ascii c in
  if ((97 <=? k) && (k <=? 122))%nat then Ascii.ascii_of_nat (k - 32) else c.

Fixpoint toUpperCase (s : string) : string :=
  match s with
  | EmptyString => EmptyString
  | String c r => String (upper_ascii c) (toUpperCase r)
  end.

(** A type selector [tag] against a node of an HTML document: the node is
    an element and its [nodeName] is the upper-cased tag. *)
Definition matches (tag : string) (n : Node) : bool :=
  (nodeType n =? ELEMENT_NODE) && String.eqb (nodeName n) (toUpperCase tag).

(** [element.querySelectorAll(tag)]: the matching descendants of the
    element (never the element itself), in document order. *)
Definition querySelectorAll (n : Node) (tag : string) : list Node :=
  List.filter (matches tag) (descendants n).

Record Document : Type :=
  mkDocument { documentElement : Node; body : option Node }.

(** [document.getElementsByTagName(tag)]: every matching element of the
    document, in document order. *)
Definition getElementsByTagName (d : Document) (tag : string) : list Node :=
  List.filter (matches tag) (inclusive_descendants (documentElement d)).

(** ** The world the scripts run in *)

Inductive Attr : Type := Src | Srcset.

Record Fields : Type := mkFields { src : value; srcset : value }.

Definition no_fields : Fields := {| src := VUndefined; srcset := VUndefined |}.

Definition with_attr (a : Attr) (v : value) (f : Fields) : Fields :=
  match a with
  | Src => {| src := v; srcset := srcset f |}
  | Srcset => {| src := src f; srcset := v |}
  end.

(** The numbers of the scripts are doubles. Those that occur are finite and
    not negative: such a double is [mant * 2 ^ expo], with a significand
    below [2 ^ 53] and an exponent of at least [-1074]. *)
Record double : Type := mkDouble { mant : Z; expo : Z }.

(** [Math.random()] returns a double in the interval [0, 1). *)
Definition unit_interval (r : double) : Prop :=
  0 <= mant r < 2 ^ 53 /\ -1074 <= expo r <= 0 /\ mant r < 2 ^ (- expo r).

(** The double nearest to [m * 2 ^ e], ties going to the even significand:
    a significand of more than 53 bits loses its low bits. *)
Definition round_nearest_even (m e : Z) : double :=
  let digits := Z.log2 m + 1 in
  if digits <=? 53 then mkDouble m e
  else
    let s := digits - 53 in
    let q := m / 2 ^ s in
    let rest := m mod 2 ^ s in
    let half := 2 ^ (s - 1) in
    let up := if rest <? half then false
              else if half <? rest then true
              else Z.odd q in
    mkDouble (if up then q + 1 else q) (e + s).

(** [a * b]: the exact product, rounded. *)
Definition double_mul (a b : double) : double :=
  round_nearest_even (mant a * mant b) (expo a + expo b).

(** The length of an array as a double (lengths are below [2 ^ 32], so
    this is exact). *)
Definition double_of_length (k : Z) : double := mkDouble k 0.

(** [Math.floor(d)], an integer. *)
Definition Math_floor (d : double) : Z :=
  if 0 <=? expo d then mant d * 2 ^ expo d else mant d / 2 ^ (- expo d).

Record MutationObserverInit : Type :=
  mkInit { childList : bool; attributes : bool; characterData : bool; subtree : bool }.

Record MutationRecord : Type :=
  mkRecord { type : string; target : nat;
             addedNodes : list Node; removedNodes : list Node }.

Inductive ConsoleEntry : Type :=
  | ConsoleLog (args : list value)
  | ConsoleError (args : list value)
  | AssertionFailed (message : string).

Record World : Type := mkWorld {
  props : gmap nat Fields;            (* src and srcset of each node *)
  faults : gmap nat thrown;           (* nodes whose property setters throw *)
  random : nat -> double;             (* the results of Math.random(), in order *)
  drawn : nat;                        (* how many of them were consumed *)
  console : list ConsoleEntry;        (* console output, oldest first *)
  history : list (nat * Attr * value);(* property assignments attempted, oldest first *)
  observers : list (nat * MutationObserverInit); (* observe() registrations *)
  queue : list MutationRecord         (* records queued for the observer *)
}.

Definition fields_of (w : World) (i : nat) : Fields :=
  default no_fields (props w !! i).

Definition set_props (p : gmap nat Fields) (w : World) : World :=
  mkWorld p (faults w) (random w) (drawn w) (console w) (history w) (observers w) (queue w).
Definition set_drawn (k : nat) (w : World) : World :=
  mkWorld (props w) (faults w) (random w) k (console w) (history w) (observers w) (queue w).
Definition set_console (c : list ConsoleEntry) (w : World) : World :=
  mkWorld (props w) (faults w) (random w) (drawn w) c (history w) (observers w) (queue w).
Definition set_history (h : list (nat * Attr * value)) (w : World) : World :=
  mkWorld (props w) (faults w) (random w) (drawn w) (console w) h (observers w) (queue w).
Definition set_observers (o : list (nat * MutationObserverInit)) (w : World) : World :=
  mkWorld (props w) (faults w) (random w) (drawn w) (console w) (history w) o (queue w).
Definition set_queue (q : list MutationRecord) (w : World) : World :=
  mkWorld (props w) (faults w) (random w) (drawn w) (console w) (history w) (observers w) q.

(** ** Computations: state and exceptions *)

Definition M (A : Type) : Type := World -> completion A * World.

Definition ret {A} (a : A) : M A := fun w => (Normal a, w).

Definition bind {A B} (m : M A) (k : A -> M B) : M B := fun w =>
  match m w with
  | (Normal a, w') => k a w'
  | (Throw e, w') => (Throw e, w')
  end.

Definition throw {A} (e : thrown) : M A := fun w => (Throw e, w).

(** [try { body } catch (error) { handler(error) }] *)
Definition try_catch {A} (body : M A) (handler : thrown -> M A) : M A := fun w =>
  match body w with
  | (Normal a, w') => (Normal a, w')
  | (Throw e, w') => handler e w'
  end.

Declare Scope js_scope.
Delimit Scope js_scope with js.
Notation "x <- c1 ;; c2" := (bind c1 (fun x => c2))
  (at level 100, c1 at next level, right associativity) : js_scope.
Notation "c1 ;; c2" := (bind c1 (fun _ => c2))
  (at level 100, right associativity) : js_scope.
Local Open Scope js_scope.

(** [for (const x of l) f(x)], [l.forEach(f)] and the indexed [for] loop
    over a collection: [f] on each element in order, stopping at a throw. *)
Fixpoint forEach {A} (f : A -> M unit) (l : list A) : M unit :=
  match l with
  | [] => ret tt
  | x :: r => f x ;; forEach f r
  end.

(** ** Host operations *)

Definition console_log (args : list value) : M unit := fun w =>
  (Normal tt, set_console (console w ++ [ConsoleLog args]) w).

Definition console_error (args : list value) : M unit := fun w =>
  (Normal tt, set_console (console w ++ [ConsoleError args]) w).

(** [console.assert(cond, message)]: prints when [cond] is false; it never
    throws. *)
Definition console_assert (cond : bool) (message : string) : M unit := fun w =>
  if cond then (Normal tt, w)
  else (Normal tt, set_console (console w ++ [AssertionFailed message]) w).

Definition Math_random : M double := fun w =>
  (Normal (random w (drawn w)), set_drawn (S (drawn w)) w).

(** [Math.floor(r * k)] for the draw [r] and the length [k] of an array. *)
Definition Math_floor_times (r : double) (k : Z) : Z :=
  Math_floor (double_mul r (double_of_length k)).

(** [a[i]]: the element, or [undefined] out of range. *)
Definition array_get (a : list string) (i : Z) : value :=
  if i <? 0 then VUndefined
  else match a !! Z.to_nat i with
       | Some s => VString s
       | None => VUndefined
       end.

(** Is an observer registered with [o] told of a mutation of this kind? *)
Definition wants (o : MutationObserverInit) (kind : string) : bool :=
  if String.eqb kind "childList" then childList o
  else if String.eqb kind "attributes" then attributes o
  else if String.eqb kind "characterData" then characterData o
  else false.

(** The DOM's "queue a mutation record": the record reaches the queue when
    a registration asks for its kind. (Every registration is taken to cover
    the mutated node, whatever its [subtree] option.) *)
Definition queue_record (r : MutationRecord) (w : World) : World :=
  if existsb (fun '(_, o) => wants o (type r)) (observers w)
  then set_queue (queue w ++ [r]) w
  else w.

(** [node.src = v] and [node.srcset = v]: the attempt is recorded; a faulty
    node throws; otherwise the property is set, which is an attribute
    mutation of the node. *)
Definition set_attribute (n : Node) (a : Attr) (v : value) : M unit := fun w =>
  let w1 := set_history (history w ++ [(nodeId n, a, v)]) w in
  match faults w !! nodeId n with
  | Some e => (Throw e, w1)
  | None =>
      (Normal tt,
       queue_record (mkRecord "attributes" (nodeId n) [] [])
         (set_props (<[nodeId n := with_attr a v (fields_of w (nodeId n))]> (props w)) w1))
  end.

(** [new MutationObserver(cb).observe(target, options)]. *)
Definition observe (tgt : option Node) (o : MutationObserverInit) : M unit := fun w =>
  match tgt with
  | None =>
      (Throw (ErrorObject
         "Failed to execute 'observe' on 'MutationObserver': parameter 1 is not of type 'Node'."), w)
  | Some n =>
      if childList o || attributes o || characterData o
      then (Normal tt, set_observers (observers w ++ [(nodeId n, o)]) w)
      else (Throw (ErrorObject
         "Failed to execute 'observe' on 'MutationObserver': The options object must set at least one of 'attributes', 'characterData', or 'childList' to true."), w)
  end.

(** The runtime's delivery of the queued records to the observer's
    callback: the queue is emptied and the callback runs on its content;
    what the callback throws reaches the runtime. *)
Definition deliver (callback : list MutationRecord -> M unit) : M unit := fun w =>
  match queue w with
  | [] => (Normal tt, w)
  | rs => callback rs (set_queue [] w)
  end.

(** ** cagify/src/content.ts *)

Module Content.
Section Script.

Variable CAGE_URLS : list string.

Definition checkRep : M unit :=
  console_assert true "RI Fail: CAGE_URLS is not an array." ;;
  console_assert (0 <? Z.of_nat (length CAGE_URLS)) "RI Fail: CAGE_URLS is empty." ;;
  forEach (fun url =>
    console_assert (0 <? Z.of_nat (String.length url))
      ("RI Fail: Invalid URL entry: " +:+ url)) CAGE_URLS.

Definition getRandomCageUrl : M value :=
  r <- Math_random ;;
  let randomIndex := Math_floor_times r (Z.of_nat (length CAGE_URLS)) in
  ret (array_get CAGE_URLS randomIndex).

Definition cageifyImage (imgElement : Node) : M unit :=
  newSrc <- getRandomCageUrl ;;
  set_attribute imgElement Src newSrc ;;
  set_attribute imgElement Srcset (VString "").

Definition processNode (node : Node) : M unit :=
  if String.eqb (nodeName node) "IMG" then cageifyImage node
  else if nodeType node =? ELEMENT_NODE then
    let nestedImages := querySelectorAll node "img" in
    forEach cageifyImage nestedImages
  else ret tt.

Definition observerCallback (mutationsList : list MutationRecord) : M unit :=
  forEach (fun mutation =>
    if String.eqb (type mutation) "childList"
    then forEach processNode (addedNodes mutation)
    else ret tt) mutationsList.

Definition config : MutationObserverInit :=
  {| childList := true; attributes := false; characterData := false; subtree := true |}.

(** The body of the [try] block. *)
Definition activation (document : Document) : M unit :=
  checkRep ;;
  let images := getElementsByTagName document "img" in
  console_log [VString ("Cageify TS found " +:+ pretty (length images)
                          +:+ " images. Replacing...")] ;;
  forEach (fun img =>
    newSrc <- getRandomCageUrl ;;
    set_attribute img Src newSrc) images ;;
  console_log [VString "Cageify TS replacement complete!"] ;;
  observe (body document) config.

(** The [catch] block. *)
Definition handler (error : thrown) : M unit :=
  match error with
  | ErrorObject message =>
      console_error [VString "Cageify TS Error:"; VString message]
  | ThrownValue v =>
      console_error [VString "Cageify TS encountered an unknown error:"; v]
  end.

(** The whole script. *)
Definition main (document : Document) : M unit :=
  console_log [VString "Cageify TS Content Script Loaded!"] ;;
  try_catch (activation document) handler.

End Script.
End Content.

(** ** The class-based variant *)

Module Cageify.
Section Class.

(** [this.CAGE_URLS] *)
Variable CAGE_URLS : list string.

Definition checkRep : M unit :=
  console_assert (negb (Z.of_nat (length CAGE_URLS) =? 0)) "CAGE_URLS must not be empty" ;;
  forEach (fun url =>
    console_assert (negb (Z.of_nat (String.length url) =? 0))
      "CAGE_URLS must not contain empty strings" ;;
    console_assert (String.prefix "https://" url)
      "CAGE_URLS must contain valid urls") CAGE_URLS.

Definition getRandomCageUrl : M value :=
  r <- Math_random ;;
  ret (array_get CAGE_URLS (Math_floor_times r (Z.of_nat (length CAGE_URLS)))).

Definition replaceImage (img : Node) : M unit :=
  randomImage <- getRandomCageUrl ;;
  set_attribute img Src randomImage.

(** The body of the loop over [record.addedNodes]. *)
Definition callback_node (node : Node) : M unit :=
  (if String.eqb (nodeName node) "IMG" then replaceImage node else ret tt) ;;
  (if nodeType node =? ELEMENT_NODE then
     let nestedImages := querySelectorAll node "img" in
     forEach replaceImage nestedImages
   else ret tt).

Definition callback (records : list MutationRecord) : M unit :=
  forEach (fun record => forEach callback_node (addedNodes record)) records.

Definition options : MutationObserverInit :=
  {| childList := true; attributes := false; characterData := false; subtree := true |}.

(** The script after [new Cageify(urls)]. *)
Definition run (document : Document) : M unit :=
  forEach replaceImage (getElementsByTagName document "img") ;;
  observe (body document) options.

End Class.

(** [new Cageify(urls)]: the object is its list. *)
Definition constructor (urls : list string) : M (list string) :=
  checkRep urls ;; ret urls.

(** The whole script, for the list handed to the constructor. *)
Definition main (urls : list string) (document : Document) : M unit :=
  console_log [VString "already using typescript"] ;;
  cageify <- constructor urls ;;
  run cageify document.

End Cageify.

(** ** Definitions the properties are stated with *)

(** The representation invariant both files state in their comments: the
    list is not empty, and every entry is a non-empty string starting with
    the secure-scheme prefix. *)
Definition rep_invariant (urls : list string) : bool :=
  negb (Z.of_nat (length urls) =? 0)
  && forallb (fun url => negb (Z.of_nat (String.length url) =? 0)
                         && String.prefix "https://" url) urls.

(** The identifier picked from [urls] with draw number [k] of the stream
    [rnd]. *)
Definition pick (urls : list string) (rnd : nat -> double) (k : nat) : value :=
  array_get urls (Math_floor_times (rnd k) (Z.of_nat (length urls))).

(** The specification's [replaceOne]: draw an identifier, assign it to the
    source field, clear the source-set field. *)
Definition replaceOne_spec (urls : list string) (imageElement : Node) : M unit :=
  fun w =>
    bind (set_attribute imageElement Src (pick urls (random w) (drawn w)))
         (fun _ => set_attribute imageElement Srcset (VString ""))
         (set_drawn (S (drawn w)) w).

(** The assignments [replaceOne] makes on each node of [l] in turn, the
    first with draw number [k]. *)
Fixpoint replaceOne_trace (urls : list string) (rnd : nat -> double) (k : nat)
    (l : list Node) : list (nat * Attr * value) :=
  match l with
  | [] => []
  | n :: r =>
      (nodeId n, Src, pick urls rnd k) :: (nodeId n, Srcset, VString "")
        :: replaceOne_trace urls rnd (S k) r
  end.

(** The nodes [processNode] replaces, over its three cases. *)
Definition images_to_replace (node : Node) : list Node :=
  if String.eqb (nodeName node) "IMG" then [node]
  else if nodeType node =? ELEMENT_NODE then
    List.filter (matches "img") (descendants node)
  else [].

(** The assignments attempted between world [w] and a later world [w']. *)
Definition assigned (w w' : World) : list (nat * Attr * value) :=
  drop (length (history w)) (history w').

Definition is_src_of (i : nat) (e : nat * Attr * value) : bool :=
  match e with
  | (j, Src, _) => (j =? i)%nat
  | (_, Srcset, _) => false
  end.

(** How many times the source field of node [i] is assigned in [d]. *)
Definition applications (i : nat) (d : list (nat * Attr * value)) : nat :=
  length (List.filter (is_src_of i) d).

(** The identities of the added nodes of a batch and of their descendants. *)
Definition added_ids (records : list MutationRecord) : list nat :=
  flat_map (fun r => flat_map (fun n => map nodeId (inclusive_descendants n))
                              (addedNodes r)) records.

(** The record the DOM queues when [removed] are taken out of node [tgt]. *)
Definition removal_record (tgt : nat) (removed : list Node) : MutationRecord :=
  mkRecord "childList" tgt [] removed.

Definition forget_removed (r : MutationRecord) : MutationRecord :=
  mkRecord (type r) (target r) (addedNodes r) [].

(** No registration asks for attribute mutations. *)
Definition attribute_blind (w : World) : Prop :=
  Forall (fun p : nat * MutationObserverInit => attributes p.2 = false) (observers w).

(** [confined S m]: whatever [m] does, it assigns only properties of nodes
    in [S]; it leaves the faults, the random stream and the registrations
    alone and only extends the history; and it queues no record when no
    registration asks for attribute mutations. *)
Definition confined {A} (S : nat -> Prop) (m : M A) : Prop :=
  forall w,
    let w' := (m w).2 in
    faults w' = faults w /\ random w' = random w /\ observers w' = observers w /\
    (exists d, history w' = history w ++ d /\ Forall (fun e => S e.1.1) d) /\
    (forall i, ~ S i -> props w' !! i = props w !! i) /\
    (attribute_blind w -> queue w' = queue w).

(** [m] leaves the source-set field of every node as it was. *)
Definition keeps_srcset {A} (m : M A) : Prop :=
  forall w i, srcset (fields_of (m w).2 i) = srcset (fields_of w i).

(** The world after the first line of the content script. *)
Definition loaded (w : World) : World :=
  set_console (console w ++ [ConsoleLog [VString "Cageify TS Content Script Loaded!"]]) w.

(** The console entry by which the [catch] block reports what it caught. *)
Definition report (e : thrown) : ConsoleEntry :=
  match e with
  | ErrorObject message => ConsoleError [VString "Cageify TS Error:"; VString message]
  | ThrownValue v => ConsoleError [VString "Cageify TS encountered an unknown error:"; v]
  end.

(** ** Sample inputs *)

Module Sample.

Definition img (i : nat) : Node := mkNode i "IMG" ELEMENT_NODE [].
Definition text (i : nat) : Node := mkNode i "#text" TEXT_NODE [].
Definition div (i : nat) (cs : list Node) : Node := mkNode i "DIV" ELEMENT_NODE cs.

(** [<body><img><div>text<img></div></body>] *)
Definition page_body : Node :=
  mkNode 1 "BODY" ELEMENT_NODE [img 2; div 3 [text 4; img 5]].

Definition page : Document :=
  mkDocument (mkNode 0 "HTML" ELEMENT_NODE [page_body]) (Some page_body).

(** The same page before its body exists. *)
Definition early_page : Document :=
  mkDocument (mkNode 0 "HTML" ELEMENT_NODE []) None.

Definition urls : list string := ["https://a.example/1.jpg"; "https://a.example/2.jpg"].

(** Image 2 has a source and a source set; the draws are 0, 1/4, 1/2,
    3/4, 0, ... *)
Definition world : World :=
  mkWorld {[ 2%nat := mkFields (VString "a.png") (VString "a-2x.png 2x") ]}
          ∅ (fun k => mkDouble (Z.of_nat (k mod 4)) (-2)) 0 [] [] [] [].

(** The same world after the script registered its observer on the body. *)
Definition observed_world : World :=
  set_observers [(1%nat, Content.config)] world.

(** A world in which assigning a property of image 5 throws. *)
Definition faulty_world : World :=
  mkWorld (props world) {[ 5%nat := ErrorObject "Cannot assign to read only property" ]}
          (random world) 0 [] [] [] [].

(** An image the page adds later, and a world in which assigning one of
    its properties throws. *)
Definition late_img : Node := img 30.

Definition hostile_world : World :=
  mkWorld (props world) {[ 30%nat := ErrorObject "Cannot assign to read only property" ]}
          (random world) 0 [] [] [] [].

(** A container with three images, as inserted in one piece. *)
Definition gallery : Node := div 10 [img 11; div 12 [img 13]; text 14; img 15].

(** An image element that was given an image child through the DOM. *)
Definition nested_img : Node := mkNode 20 "IMG" ELEMENT_NODE [img 21].

End Sample.

(** ** Definitions for the further properties *)

(** What [checkRep] of the content script does check: the list is not
    empty and no entry is the empty string. *)
Definition content_invariant (urls : list string) : bool :=
  (0 <? Z.of_nat (length urls))
  && forallb (fun url => 0 <? Z.of_nat (String.length url)) urls.

(** [m] completes normally and only appends [out] to the console. *)
Definition prints (m : M unit) (out : list ConsoleEntry) : Prop :=
  forall w, m w = (Normal tt, set_console (console w ++ out) w).

(** The assignments of a loop of source assignments over [l], the first
    with draw number [k]. *)
Fixpoint replaceImage_trace (urls : list string) (rnd : nat -> double) (k : nat)
    (l : list Node) : list (nat * Attr * value) :=
  match l with
  | [] => []
  | n :: r => (nodeId n, Src, pick urls rnd k) :: replaceImage_trace urls rnd (S k) r
  end.

(** Two worlds that differ at most in their console. *)
Definition same_page (w1 w2 : World) : Prop :=
  props w1 = props w2 /\ faults w1 = faults w2 /\ random w1 = random w2 /\
  drawn w1 = drawn w2 /\ history w1 = history w2 /\
  observers w1 = observers w2 /\ queue w1 = queue w2.

(** [m] neither reads nor writes the console. *)
Definition console_blind {A} (m : M A) : Prop :=
  forall w1 w2, same_page w1 w2 ->
    (m w1).1 = (m w2).1 /\ same_page (m w1).2 (m w2).2.

(** [m] completes normally and changes the console at most. *)
Definition console_only (m : M unit) : Prop :=
  forall w, (m w).1 = Normal tt /\ same_page w (m w).2.

(** The images the callback of the content script replaces for a batch, in
    the order it replaces them. *)
Definition content_targets (records : list MutationRecord) : list Node :=
  flat_map (fun r => if String.eqb (type r) "childList"
                     then flat_map images_to_replace (addedNodes r)
                     else []) records.

(** The nodes the callback of the class-based variant replaces for one
    added node, and for a batch. *)
Definition class_targets (node : Node) : list Node :=
  (if String.eqb (nodeName node) "IMG" then [node] else [])
  ++ (if nodeType node =? ELEMENT_NODE then querySelectorAll node "img" else []).

Definition callback_targets (records : list MutationRecord) : list Node :=
  flat_map (fun r => flat_map class_targets (addedNodes r)) records.

(** Two worlds in which the scripts draw alike and every node has the same
    source and the same faults (source sets, history, console and queue may
    differ). *)
Definition same_sources (w1 w2 : World) : Prop :=
  (forall i, src (fields_of w1 i) = src (fields_of w2 i)) /\
  faults w1 = faults w2 /\ random w1 = random w2 /\ drawn w1 = drawn w2 /\
  observers w1 = observers w2.

(** ** The image elements of a subtree *)

(** An image element: an element whose tag is the image tag. *)
Definition is_image_element (n : Node) : bool :=
  (nodeType n =? ELEMENT_NODE) && String.eqb (nodeName n) "IMG".

(** [m] lies in the subtree below [n]: it is a child of [n] or lies below
    a child of [n]. *)
Inductive descendant_of (m : Node) : Node -> Prop :=
  | descendant_child n : m ∈ childNodes n -> descendant_of m n
  | descendant_deeper c n : c ∈ childNodes n -> descendant_of m c -> descendant_of m n.

(** The image elements of the subtree of [n], [n] included, in document
    order: [n] itself if it is one, then those of the subtree of each child
    in turn. *)
Fixpoint subtree_images (n : Node) : list Node :=
  match n with
  | mkNode _ _ _ cs =>
      (if is_image_element n then [n] else []) ++ flat_map subtree_images cs
  end.

(** The image elements below [n], in document order. *)
Definition descendant_images (n : Node) : list Node :=
  flat_map subtree_images (childNodes n).

(** How often a batch lists a node with the image tag and identity [i]
    among its added nodes, and how often an image element with identity [i]
    lies below an added element of the batch. *)
Definition times_listed (i : nat) (records : list MutationRecord) : nat :=
  length (List.filter (fun n => String.eqb (nodeName n) "IMG" && (nodeId n =? i)%nat)
            (flat_map addedNodes records)).

Definition times_below (i : nat) (records : list MutationRecord) : nat :=
  length (List.filter (fun m => (nodeId m =? i)%nat)
            (flat_map (fun n => if nodeType n =? ELEMENT_NODE then descendant_images n else [])
               (flat_map addedNodes records))).

(** * Properties *)

(** ** Reasoning about computations *)

Lemma bind_normal {A B} (m : M A) (k : A -> M B) w a w' :
  m w = (Normal a, w') -> bind m k w = k a w'.
Proof. intros H. unfold bind. now rewrite H. Qed.

Lemma bind_throw {A B} (m : M A) (k : A -> M B) w e w' :
  m w = (Throw e, w') -> bind m k w = (Throw e, w').
Proof. intros H. unfold bind. now rewrite H. Qed.

Lemma forEach_app {A} (f : A -> M unit) (l1 l2 : list A) w :
  forEach f (l1 ++ l2) w = bind (forEach f l1) (fun _ => forEach f l2) w.
Proof.
  revert w. induction l1 as [|x l1 IH]; intros w; simpl.
  - reflexivity.
  - unfold bind. destruct (f x w) as [[[]|e] w1]; [|reflexivity].
    rewrite IH. reflexivity.
Qed.

Lemma attribute_blind_queue r w :
  type r = "attributes" -> attribute_blind w -> queue_record r w = w.
Proof.
  unfold attribute_blind, queue_record. intros -> H.
  replace (existsb _ (observers w)) with false; [reflexivity|].
  symmetry. induction H as [|[i o] l Ho _ IH]; [reflexivity|].
  cbn [existsb]. rewrite IH. unfold wants. simpl in *. now rewrite Ho.
Qed.

Lemma confined_mono {A} (S S' : nat -> Prop) (m : M A) :
  (forall i, S i -> S' i) -> confined S m -> confined S' m.
Proof.
  intros HS H w. destruct (H w) as (Hf & Hr & Ho & (d & Hd & HF) & Hp & Hq).
  repeat split; try assumption.
  - exists d. split; [assumption|]. eapply Forall_impl; [exact HF|]. intros e; apply HS.
  - intros i Hi. apply Hp. intros Hs. apply Hi, HS, Hs.
Qed.

Lemma confined_ext {A} S (m m' : M A) :
  (forall w, m w = m' w) -> confined S m' -> confined S m.
Proof. intros E H w. rewrite E. apply H. Qed.

Lemma confined_ret {A} S (a : A) : confined S (ret a).
Proof.
  intros w; simpl. repeat split; try reflexivity.
  exists []. now rewrite app_nil_r.
Qed.

Lemma confined_bind {A B} S (m : M A) (k : A -> M B) :
  confined S m -> (forall a, confined S (k a)) -> confined S (bind m k).
Proof.
  intros Hm Hk w. specialize (Hm w). unfold bind.
  destruct (m w) as [[a|e] w1]; simpl in *; [|exact Hm].
  destruct Hm as (Hf & Hr & Ho & (d & Hd & HF) & Hp & Hq).
  destruct (Hk a w1) as (Hf' & Hr' & Ho' & (d' & Hd' & HF') & Hp' & Hq').
  repeat split.
  - congruence.
  - congruence.
  - congruence.
  - exists (d ++ d'). split; [now rewrite Hd', Hd, app_assoc|]. now apply Forall_app.
  - intros i Hi. now rewrite Hp', Hp.
  - intros Hb. rewrite Hq', Hq; [reflexivity|assumption|].
    unfold attribute_blind in *. now rewrite Ho.
Qed.

Lemma confined_forEach {A} S (f : A -> M unit) (l : list A) :
  (forall x, x ∈ l -> confined S (f x)) -> confined S (forEach f l).
Proof.
  induction l as [|x l IH]; intros H; simpl.
  - apply confined_ret.
  - apply confined_bind.
    + apply H. left.
    + intros _. apply IH. intros y Hy. apply H. now right.
Qed.

Lemma confined_if {A} S (b : bool) (m1 m2 : M A) :
  confined S m1 -> confined S m2 -> confined S (if b then m1 else m2).
Proof. now destruct b. Qed.

Lemma confined_console_assert S c msg : confined S (console_assert c msg).
Proof.
  intros w. unfold console_assert. destruct c; simpl; repeat split; try reflexivity;
    exists []; now rewrite app_nil_r.
Qed.

Lemma confined_Math_random S : confined S Math_random.
Proof.
  intros w. simpl. repeat split; try reflexivity. exists []. now rewrite app_nil_r.
Qed.

Lemma confined_set_attribute (S : nat -> Prop) n a v :
  S (nodeId n) -> confined S (set_attribute n a v).
Proof.
  intros HS w. unfold set_attribute.
  assert (Hd : Forall (fun e : nat * Attr * value => S e.1.1) [(nodeId n, a, v)])
    by now constructor.
  destruct (faults w !! nodeId n) as [e|]; simpl.
  - repeat split; try reflexivity. now exists [(nodeId n, a, v)].
  - set (w1 := set_props _ _).
    assert (Hq : attribute_blind w ->
                 queue_record (mkRecord "attributes" (nodeId n) [] []) w1 = w1)
      by (intros Hb; now apply attribute_blind_queue).
    unfold queue_record in *.
    destruct (existsb _ _); simpl; repeat split; try reflexivity.
    + now exists [(nodeId n, a, v)].
    + intros i Hi. apply lookup_insert_ne. intros E. apply Hi. now rewrite <- E.
    + intros Hb. specialize (Hq Hb). apply (f_equal queue) in Hq. exact Hq.
    + now exists [(nodeId n, a, v)].
    + intros i Hi. apply lookup_insert_ne. intros E. apply Hi. now rewrite <- E.
Qed.

(** ** The document tree *)

Lemma inclusive_descendants_unfold n :
  inclusive_descendants n = n :: descendants n.
Proof. now destruct n. Qed.

Lemma elem_of_querySelectorAll n tag m :
  m ∈ querySelectorAll n tag -> m ∈ descendants n /\ matches tag m = true.
Proof.
  unfold querySelectorAll. rewrite !list_elem_of_In, filter_In. tauto.
Qed.

Lemma images_to_replace_below node m :
  m ∈ images_to_replace node -> m ∈ inclusive_descendants node.
Proof.
  unfold images_to_replace. rewrite inclusive_descendants_unfold.
  destruct (String.eqb _ _).
  - intros ->%list_elem_of_singleton. left.
  - destruct (nodeType node =? ELEMENT_NODE).
    + intros H. right. now apply (elem_of_querySelectorAll node "img").
    + intros H. inversion H.
Qed.

(** ** Property assignment *)

Lemma set_attribute_ok n a v w :
  faults w !! nodeId n = None ->
  exists w', set_attribute n a v w = (Normal tt, w') /\
    props w' = <[nodeId n := with_attr a v (fields_of w (nodeId n))]> (props w) /\
    faults w' = faults w /\ random w' = random w /\ drawn w' = drawn w /\
    console w' = console w /\ observers w' = observers w /\
    history w' = history w ++ [(nodeId n, a, v)].
Proof.
  intros H. unfold set_attribute. rewrite H. eexists. split; [reflexivity|].
  unfold queue_record. now destruct (existsb _ _).
Qed.

Lemma set_attribute_faulty n a v w e :
  faults w !! nodeId n = Some e ->
  set_attribute n a v w = (Throw e, set_history (history w ++ [(nodeId n, a, v)]) w).
Proof. intros H. unfold set_attribute. now rewrite H. Qed.

Lemma assigned_app w w' d : history w' = history w ++ d -> assigned w w' = d.
Proof. intros H. unfold assigned. rewrite H. apply drop_app_length. Qed.

(** ** The procedural script, piece by piece *)

Lemma content_cageifyImage_ok urls n w :
  faults w !! nodeId n = None ->
  exists w', Content.cageifyImage urls n w = (Normal tt, w') /\
    props w' = <[nodeId n := mkFields (pick urls (random w) (drawn w)) (VString "")]> (props w) /\
    faults w' = faults w /\ random w' = random w /\ drawn w' = S (drawn w) /\
    console w' = console w /\ observers w' = observers w /\
    history w' = history w ++ replaceOne_trace urls (random w) (drawn w) [n].
Proof.
  intros H. unfold Content.cageifyImage, Content.getRandomCageUrl.
  unfold bind at 1 2. simpl.
  destruct (set_attribute_ok n Src (pick urls (random w) (drawn w))
              (set_drawn (S (drawn w)) w) H)
    as (w1 & E1 & Hp1 & Hf1 & Hr1 & Hd1 & Hc1 & Ho1 & Hh1).
  fold (pick urls (random w) (drawn w)).
  erewrite bind_normal by exact E1.
  destruct (set_attribute_ok n Srcset (VString "") w1) as
    (w2 & E2 & Hp2 & Hf2 & Hr2 & Hd2 & Hc2 & Ho2 & Hh2); [now rewrite Hf1|].
  exists w2. split; [exact E2|]. simpl in *.
  split; [|repeat split; try congruence].
  - rewrite Hp2. unfold fields_of. rewrite Hp1, lookup_insert_eq. simpl.
    now rewrite insert_insert_eq.
  - rewrite Hh2, Hh1. now rewrite <- app_assoc.
Qed.

Lemma content_forEach_cageifyImage_ok urls l : forall w,
  (forall m, m ∈ l -> faults w !! nodeId m = None) ->
  exists w', forEach (Content.cageifyImage urls) l w = (Normal tt, w') /\
    faults w' = faults w /\ random w' = random w /\
    drawn w' = (drawn w + length l)%nat /\
    console w' = console w /\ observers w' = observers w /\
    history w' = history w ++ replaceOne_trace urls (random w) (drawn w) l.
Proof.
  induction l as [|n l IH]; intros w H.
  - exists w. simpl. rewrite app_nil_r, Nat.add_0_r. now repeat split.
  - destruct (content_cageifyImage_ok urls n w) as
      (w1 & E1 & _ & Hf1 & Hr1 & Hd1 & Hc1 & Ho1 & Hh1); [apply H; left|].
    destruct (IH w1) as (w2 & E2 & Hf2 & Hr2 & Hd2 & Hc2 & Ho2 & Hh2).
    { intros m Hm. rewrite Hf1. apply H. now right. }
    exists w2. split; [simpl; now rewrite (bind_normal _ _ _ _ _ E1)|].
    repeat split; try congruence.
    + rewrite Hd2, Hd1. simpl. lia.
    + rewrite Hh2, Hh1, Hr1, Hd1. simpl. now rewrite <- app_assoc.
Qed.

Lemma content_processNode_forEach urls node w :
  Content.processNode urls node w =
  forEach (Content.cageifyImage urls) (images_to_replace node) w.
Proof.
  unfold Content.processNode, images_to_replace.
  destruct (String.eqb _ _); [|now destruct (nodeType node =? ELEMENT_NODE)].
  simpl. unfold bind. now destruct (Content.cageifyImage urls node w) as [[[]|e] w1].
Qed.

Lemma confined_content_getRandomCageUrl S urls :
  confined S (Content.getRandomCageUrl urls).
Proof.
  apply confined_bind; [apply confined_Math_random|]. intros r. apply confined_ret.
Qed.

Lemma confined_content_cageifyImage (S : nat -> Prop) urls n :
  S (nodeId n) -> confined S (Content.cageifyImage urls n).
Proof.
  intros H. apply confined_bind; [apply confined_content_getRandomCageUrl|].
  intros v. apply confined_bind; [now apply confined_set_attribute|].
  intros _. now apply confined_set_attribute.
Qed.

Lemma confined_content_processNode urls node :
  confined (fun i => i ∈ map nodeId (inclusive_descendants node))
           (Content.processNode urls node).
Proof.
  eapply confined_ext; [apply content_processNode_forEach|].
  apply confined_forEach. intros m Hm. apply confined_content_cageifyImage.
  apply list_elem_of_fmap. exists m. split; [reflexivity|].
  now apply images_to_replace_below.
Qed.

Lemma elem_of_added_ids i records :
  i ∈ added_ids records <->
  exists r n, r ∈ records /\ n ∈ addedNodes r /\ i ∈ map nodeId (inclusive_descendants n).
Proof.
  unfold added_ids. rewrite list_elem_of_In, in_flat_map. split.
  - intros (r & Hr & Hi). apply in_flat_map in Hi as (n & Hn & Hi).
    exists r, n. now rewrite !list_elem_of_In.
  - intros (r & n & Hr & Hn & Hi). rewrite !list_elem_of_In in *.
    exists r. split; [assumption|]. apply in_flat_map. now exists n.
Qed.

Lemma confined_content_observerCallback urls records :
  confined (fun i => i ∈ added_ids records) (Content.observerCallback urls records).
Proof.
  apply confined_forEach. intros r Hr.
  apply confined_if; [|apply confined_ret].
  apply confined_forEach. intros n Hn.
  eapply confined_mono; [|apply confined_content_processNode].
  intros i Hi. apply elem_of_added_ids. now exists r, n.
Qed.

(** ** Picking from the list *)

(** What rounding does to a significand of more than 53 bits. *)
Lemma round_nearest_even_long m e :
  2 ^ 53 <= m ->
  exists s q, 1 <= s /\ 2 ^ (52 + s) <= m < 2 ^ (53 + s) /\
    round_nearest_even m e = mkDouble q (e + s) /\
    m / 2 ^ s <= q /\ q * 2 ^ s <= m + 2 ^ (s - 1).
Proof.
  intros Hm. assert (H0 : 0 < m) by (pose proof (Z.pow_pos_nonneg 2 53); lia).
  destruct (Z.log2_spec m H0) as [L1 L2].
  assert (HL : 53 <= Z.log2 m).
  { apply Z.log2_le_pow2; [lia|exact Hm]. }
  set (s := Z.log2 m + 1 - 53).
  assert (Hs : 1 <= s) by (unfold s; lia).
  unfold round_nearest_even. fold s.
  destruct (Z.leb_spec (Z.log2 m + 1) 53) as [Hle|_]; [lia|].
  eexists s, _. split; [exact Hs|]. split.
  { replace (52 + s) with (Z.log2 m) by (unfold s; lia).
    replace (53 + s) with (Z.succ (Z.log2 m)) by (unfold s; lia). now split. }
  split; [reflexivity|].
  assert (P : 0 < 2 ^ s) by (apply Z.pow_pos_nonneg; lia).
  assert (E2 : 2 ^ s = 2 * 2 ^ (s - 1)).
  { replace s with (Z.succ (s - 1)) at 1 by lia. apply Z.pow_succ_r. lia. }
  pose proof (Z.div_mod m (2 ^ s) ltac:(lia)) as Hdm.
  pose proof (Z.mod_pos_bound m (2 ^ s) P) as Hmod.
  set (q := m / 2 ^ s) in *. set (rest := m mod 2 ^ s) in *.
  destruct (Z.ltb_spec rest (2 ^ (s - 1))); [split; nia|].
  destruct (Z.ltb_spec (2 ^ (s - 1)) rest); [split; nia|].
  destruct (Z.odd q); split; nia.
Qed.

Lemma round_nearest_even_short m e :
  m < 2 ^ 53 -> round_nearest_even m e = mkDouble m e.
Proof.
  intros Hm. unfold round_nearest_even.
  destruct (Z.leb_spec (Z.log2 m + 1) 53) as [_|H]; [reflexivity|].
  exfalso. destruct (Z.le_gt_cases m 0) as [Hn|Hp].
  - rewrite Z.log2_nonpos in H by assumption. lia.
  - assert (Z.log2 m < 53) by (apply Z.log2_lt_pow2; assumption). lia.
Qed.

(** The rounded product of a draw below 1 and a length stays below the
    length, so its floor is an index of the array. *)
Lemma Math_floor_times_bounds r k :
  unit_interval r -> 0 < k -> 0 <= Math_floor_times r k < k.
Proof.
  intros ((Hm0 & Hm53) & (He1 & He0) & HmD) Hk.
  unfold Math_floor_times, double_mul, double_of_length. simpl mant. simpl expo.
  rewrite Z.add_0_r.
  set (D := 2 ^ (- expo r)) in *.
  assert (HD : 0 < D) by (apply Z.pow_pos_nonneg; lia).
  destruct (Z.lt_ge_cases (mant r * k) (2 ^ 53)) as [Hshort|Hlong].
  - rewrite round_nearest_even_short by assumption. unfold Math_floor. simpl.
    destruct (Z.leb_spec 0 (expo r)) as [Hz|Hz].
    + assert (E : expo r = 0) by lia.
      assert (D1 : D = 1) by (subst D; now rewrite E).
      rewrite E. simpl. nia.
    + fold D. split; [apply Z.div_pos; nia|apply Z.div_lt_upper_bound; nia].
  - destruct (round_nearest_even_long (mant r * k) (expo r) Hlong)
      as (s & q & Hs & [Hlo Hhi] & -> & Hq & Hqs).
    assert (P : 0 < 2 ^ s) by (apply Z.pow_pos_nonneg; lia).
    assert (E2 : 2 ^ (52 + s) = 2 ^ 53 * 2 ^ (s - 1)).
    { rewrite <- Z.pow_add_r by lia. f_equal. lia. }
    assert (Ph : 0 < 2 ^ (s - 1)) by (apply Z.pow_pos_nonneg; lia).
    assert (Hhalf : 2 ^ (s - 1) < k) by nia.
    assert (Hq0 : 0 <= q).
    { assert (0 <= mant r * k / 2 ^ s) by (apply Z.div_pos; nia). lia. }
    assert (Hlt : q * 2 ^ s < k * D) by nia.
    unfold Math_floor. simpl.
    destruct (Z.leb_spec 0 (expo r + s)) as [Hz|Hz].
    + assert (Es : 2 ^ s = 2 ^ (expo r + s) * D).
      { subst D. rewrite <- Z.pow_add_r by lia. f_equal. lia. }
      assert (0 < 2 ^ (expo r + s)) by (apply Z.pow_pos_nonneg; lia).
      split; nia.
    + assert (Es : D = 2 ^ (- (expo r + s)) * 2 ^ s).
      { subst D. rewrite <- Z.pow_add_r by lia. f_equal. lia. }
      assert (0 < 2 ^ (- (expo r + s))) by (apply Z.pow_pos_nonneg; lia).
      split; [apply Z.div_pos; lia|apply Z.div_lt_upper_bound; nia].
Qed.

Lemma array_get_in_bounds (a : list string) i :
  0 <= i < Z.of_nat (length a) -> exists s, array_get a i = VString s /\ s ∈ a.
Proof.
  intros H. unfold array_get.
  destruct (i <? 0) eqn:E; [apply Z.ltb_lt in E; lia|].
  destruct (a !! Z.to_nat i) as [s|] eqn:L.
  - exists s. split; [reflexivity|]. apply list_elem_of_lookup. now exists (Z.to_nat i).
  - apply lookup_ge_None in L. lia.
Qed.

Lemma rep_invariant_nonempty urls : rep_invariant urls = true -> 0 < Z.of_nat (length urls).
Proof.
  unfold rep_invariant. intros [H _]%andb_true_iff.
  apply negb_true_iff, Z.eqb_neq in H. lia.
Qed.

Lemma pick_member urls rnd k :
  0 < Z.of_nat (length urls) -> unit_interval (rnd k) ->
  exists u, pick urls rnd k = VString u /\ u ∈ urls.
Proof.
  intros Hn Hr. apply array_get_in_bounds. now apply Math_floor_times_bounds.
Qed.

Lemma content_getRandomCageUrl_eq urls w :
  Content.getRandomCageUrl urls w = (Normal (pick urls (random w) (drawn w)), set_drawn (S (drawn w)) w).
Proof. reflexivity. Qed.

Lemma cageify_getRandomCageUrl_eq urls w :
  Cageify.getRandomCageUrl urls w = (Normal (pick urls (random w) (drawn w)), set_drawn (S (drawn w)) w).
Proof. reflexivity. Qed.

(** C4. With a list that satisfies the representation invariant, a call of
    [getRandomCageUrl] (in either file), on a draw of [Math.random] that is
    a double in [0, 1), computes an index within the bounds of the list
    (the floor of the rounded double product of the draw and the length)
    and returns normally a member of the list. *)
Theorem pick_returns_member (urls : list string) (w : World) :
  rep_invariant urls = true ->
  unit_interval (random w (drawn w)) ->
  0 <= Math_floor_times (random w (drawn w)) (Z.of_nat (length urls))
    < Z.of_nat (length urls) /\
  exists url, url ∈ urls /\
    (Content.getRandomCageUrl urls w).1 = Normal (VString url) /\
    (Cageify.getRandomCageUrl urls w).1 = Normal (VString url).
Proof.
  intros HI Hr. pose proof (rep_invariant_nonempty urls HI) as Hn. split.
  - now apply Math_floor_times_bounds.
  - destruct (pick_member urls (random w) (drawn w) Hn Hr) as (u & Hu & Hin).
    exists u. rewrite content_getRandomCageUrl_eq, cageify_getRandomCageUrl_eq.
    simpl. now rewrite Hu.
Qed.

Lemma pick_returns_member_witness :
  0 <= Math_floor_times (random Sample.world (drawn Sample.world))
         (Z.of_nat (length Sample.urls)) < Z.of_nat (length Sample.urls) /\
  exists url, url ∈ Sample.urls /\
    (Content.getRandomCageUrl Sample.urls Sample.world).1 = Normal (VString url) /\
    (Cageify.getRandomCageUrl Sample.urls Sample.world).1 = Normal (VString url).
Proof.
  apply (pick_returns_member Sample.urls Sample.world).
  - reflexivity.
  - unfold unit_interval. simpl. lia.
Defined.

(** The product is rounded before the floor is taken: for the draw 0.6 and
    five entries the rounded product is 3 and the index 3, where the exact
    product is below 3; no rounding carries the product up to the length. *)
Example rounded_product_index :
  Math_floor_times (mkDouble 5404319552844595 (-53)) 5 = 3 /\
  5404319552844595 * 5 / 2 ^ 53 = 2 /\
  Math_floor_times (mkDouble (2 ^ 53 - 1) (-53)) 5 = 4.
Proof. repeat split. Qed.

Lemma Math_floor_times_zero r : Math_floor_times r 0 = 0.
Proof.
  unfold Math_floor_times, double_mul, double_of_length. simpl mant.
  rewrite Z.mul_0_r. unfold round_nearest_even, Math_floor. simpl.
  destruct (0 <=? expo r + 0); [reflexivity|apply Zdiv_0_l].
Qed.

Lemma pick_empty rnd k : pick [] rnd k = VUndefined.
Proof. unfold pick. simpl length. simpl Z.of_nat. now rewrite Math_floor_times_zero. Qed.

(** C10. With an empty list the pick does not throw: the index computed is
    0, the read at index 0 of the empty list gives [undefined], and the
    per-image replacement of either file then assigns [undefined] to the
    source field of the image. *)
Theorem empty_list_pick_is_undefined (img : Node) (w : World) :
  faults w !! nodeId img = None ->
  Math_floor_times (random w (drawn w)) (Z.of_nat (length (@nil string))) = 0 /\
  [] !! Z.to_nat 0 = @None string /\
  Content.getRandomCageUrl [] w = (Normal VUndefined, set_drawn (S (drawn w)) w) /\
  Cageify.getRandomCageUrl [] w = (Normal VUndefined, set_drawn (S (drawn w)) w) /\
  (Content.cageifyImage [] img w).1 = Normal tt /\
  src (fields_of (Content.cageifyImage [] img w).2 (nodeId img)) = VUndefined /\
  (Cageify.replaceImage [] img w).1 = Normal tt /\
  src (fields_of (Cageify.replaceImage [] img w).2 (nodeId img)) = VUndefined.
Proof.
  intros H.
  assert (E0 : Math_floor_times (random w (drawn w)) (Z.of_nat (length (@nil string))) = 0).
  { apply Math_floor_times_zero. }
  split; [exact E0|]. split; [reflexivity|].
  rewrite content_getRandomCageUrl_eq, cageify_getRandomCageUrl_eq, pick_empty.
  split; [reflexivity|]. split; [reflexivity|].
  destruct (content_cageifyImage_ok [] img w H) as (w1 & E1 & Hp1 & _).
  rewrite E1. simpl. unfold fields_of at 1. rewrite Hp1, lookup_insert_eq, pick_empty. simpl.
  do 2 (split; [reflexivity|]).
  unfold Cageify.replaceImage. rewrite (bind_normal _ _ _ _ _ (cageify_getRandomCageUrl_eq [] w)).
  destruct (set_attribute_ok img Src (pick [] (random w) (drawn w)) (set_drawn (S (drawn w)) w) H)
    as (w2 & E2 & Hp2 & _).
  rewrite E2. simpl. unfold fields_of at 1. rewrite Hp2, lookup_insert_eq, pick_empty.
  now split.
Qed.

Lemma empty_list_pick_is_undefined_witness :
  Content.getRandomCageUrl [] Sample.world
    = (Normal VUndefined, set_drawn 1 Sample.world) /\
  src (fields_of (Content.cageifyImage [] (Sample.img 2) Sample.world).2 2%nat) = VUndefined /\
  src (fields_of (Cageify.replaceImage [] (Sample.img 2) Sample.world).2 2%nat) = VUndefined.
Proof.
  destruct (empty_list_pick_is_undefined (Sample.img 2) Sample.world)
    as (_ & _ & H1 & _ & _ & H2 & _ & H3).
  - reflexivity.
  - exact (conj H1 (conj H2 H3)).
Defined.

(** ** Classification of added nodes *)

Example querySelectorAll_gallery :
  map nodeId (querySelectorAll Sample.gallery "img") = [11; 13; 15]%nat.
Proof. reflexivity. Qed.

Lemma images_to_replace_other node :
  nodeName node <> "IMG" -> nodeType node <> ELEMENT_NODE -> images_to_replace node = [].
Proof.
  intros Hn Ht. unfold images_to_replace.
  destruct (String.eqb_spec (nodeName node) "IMG"); [contradiction|].
  destruct (Z.eqb_spec (nodeType node) ELEMENT_NODE); [contradiction|reflexivity].
Qed.

Lemma images_to_replace_image node :
  nodeName node = "IMG" -> images_to_replace node = [node].
Proof. intros Hn. unfold images_to_replace. now rewrite Hn. Qed.

Lemma images_to_replace_element node :
  nodeName node <> "IMG" -> nodeType node = ELEMENT_NODE ->
  images_to_replace node = querySelectorAll node "img".
Proof.
  intros Hn Ht. unfold images_to_replace. rewrite Ht.
  now destruct (String.eqb_spec (nodeName node) "IMG").
Qed.

Lemma replaceOne_trace_targets urls rnd l : forall k i,
  i ∈ map nodeId l -> i ∈ map (fun e => e.1.1) (replaceOne_trace urls rnd k l).
Proof.
  induction l as [|n l IH]; intros k i Hi; [inversion Hi|].
  simpl in *. apply elem_of_cons in Hi as [->|Hi]; [left|].
  right. right. now apply IH.
Qed.

Lemma content_processNode_effect urls node w :
  (forall m, m ∈ images_to_replace node -> faults w !! nodeId m = None) ->
  exists w',
    Content.processNode urls node w = (Normal tt, w') /\
    assigned w w' = replaceOne_trace urls (random w) (drawn w) (images_to_replace node) /\
    (forall i, i ∉ map nodeId (images_to_replace node) -> props w' !! i = props w !! i) /\
    (images_to_replace node = [] -> w' = w).
Proof.
  intros Hf.
  destruct (content_forEach_cageifyImage_ok urls (images_to_replace node) w Hf)
    as (w' & E & _ & _ & _ & _ & _ & Hh).
  exists w'. rewrite content_processNode_forEach. split; [exact E|].
  split; [now apply assigned_app|]. split.
  - intros i Hi.
    assert (C : confined (fun i => i ∈ map nodeId (images_to_replace node))
                  (forEach (Content.cageifyImage urls) (images_to_replace node))).
    { apply confined_forEach. intros m Hm. apply confined_content_cageifyImage.
      apply list_elem_of_fmap. now exists m. }
    destruct (C w) as (_ & _ & _ & _ & Hp & _). rewrite E in Hp. now apply Hp.
  - intros E0. rewrite E0 in E. simpl in E. now inversion E.
Qed.

Example processNode_gallery_history :
  history (Content.processNode Sample.urls Sample.gallery Sample.world).2 =
  [(11%nat, Src, VString "https://a.example/1.jpg"); (11%nat, Srcset, VString "");
   (13%nat, Src, VString "https://a.example/1.jpg"); (13%nat, Srcset, VString "");
   (15%nat, Src, VString "https://a.example/2.jpg"); (15%nat, Srcset, VString "")].
Proof. reflexivity. Qed.

(** ** The class-based script, piece by piece *)

Lemma bind_ret_tt (m : M unit) w : bind m (fun _ => ret tt) w = m w.
Proof. unfold bind. now destruct (m w) as [[[]|e] w1]. Qed.

Lemma confined_replaceImage (S : nat -> Prop) urls n :
  S (nodeId n) -> confined S (Cageify.replaceImage urls n).
Proof.
  intros H. apply confined_bind.
  - apply confined_bind; [apply confined_Math_random|]. intros r. apply confined_ret.
  - intros v. now apply confined_set_attribute.
Qed.

Lemma replaceImage_history urls n w :
  history (Cageify.replaceImage urls n w).2 =
  history w ++ [(nodeId n, Src, pick urls (random w) (drawn w))].
Proof.
  unfold Cageify.replaceImage.
  rewrite (bind_normal _ _ _ _ _ (cageify_getRandomCageUrl_eq urls w)).
  unfold set_attribute. simpl.
  destruct (faults w !! nodeId n); [reflexivity|].
  unfold queue_record. now destruct (existsb _ _).
Qed.

Lemma confined_callback_node urls node :
  confined (fun i => i ∈ map nodeId (inclusive_descendants node))
           (Cageify.callback_node urls node).
Proof.
  rewrite inclusive_descendants_unfold.
  apply confined_bind.
  - apply confined_if; [|apply confined_ret]. apply confined_replaceImage. left.
  - intros _. apply confined_if; [|apply confined_ret].
    apply confined_forEach. intros m Hm. apply confined_replaceImage.
    right. apply list_elem_of_fmap. exists m. split; [reflexivity|].
    now apply (elem_of_querySelectorAll node "img").
Qed.

Lemma confined_callback urls records :
  confined (fun i => i ∈ added_ids records) (Cageify.callback urls records).
Proof.
  apply confined_forEach. intros r Hr.
  apply confined_forEach. intros n Hn.
  eapply confined_mono; [|apply confined_callback_node].
  intros i Hi. apply elem_of_added_ids. now exists r, n.
Qed.

Lemma applications_app i d1 d2 :
  applications i (d1 ++ d2) = (applications i d1 + applications i d2)%nat.
Proof. unfold applications. now rewrite List.filter_app, length_app. Qed.

Lemma applications_elsewhere i d :
  Forall (fun e : nat * Attr * value => e.1.1 <> i) d -> applications i d = 0%nat.
Proof.
  unfold applications. induction 1 as [|[[j a] v] d Hj _ IH]; [reflexivity|].
  simpl in *. destruct a; [|exact IH].
  destruct (Nat.eqb_spec j i); [contradiction|exact IH].
Qed.

Lemma callback_node_image urls node w :
  nodeName node = "IMG" -> nodeType node = ELEMENT_NODE ->
  Cageify.callback_node urls node w =
  bind (Cageify.replaceImage urls node)
       (fun _ => forEach (Cageify.replaceImage urls) (querySelectorAll node "img")) w.
Proof. intros Hn Ht. unfold Cageify.callback_node. now rewrite Hn, Ht. Qed.

Lemma querySelectorAll_not_self node tag :
  NoDup (map nodeId (inclusive_descendants node)) ->
  nodeId node ∉ map nodeId (querySelectorAll node tag).
Proof.
  rewrite inclusive_descendants_unfold. simpl. intros [Hnot _]%NoDup_cons.
  intros (m & Hid & Hm)%list_elem_of_fmap. apply Hnot.
  apply list_elem_of_fmap. exists m. split; [exact Hid|].
  now apply (elem_of_querySelectorAll node tag).
Qed.

Lemma callback_node_image_once urls node w :
  nodeName node = "IMG" -> nodeType node = ELEMENT_NODE ->
  NoDup (map nodeId (inclusive_descendants node)) ->
  applications (nodeId node) (assigned w (Cageify.callback_node urls node w).2) = 1%nat.
Proof.
  intros Hn Ht Hd. rewrite callback_node_image by assumption.
  pose proof (replaceImage_history urls node w) as H1. unfold bind.
  destruct (Cageify.replaceImage urls node w) as [[[]|e] w1]; simpl in H1.
  - assert (C : confined (fun i => i ∈ map nodeId (querySelectorAll node "img"))
                  (forEach (Cageify.replaceImage urls) (querySelectorAll node "img"))).
    { apply confined_forEach. intros m Hm. apply confined_replaceImage.
      apply list_elem_of_fmap. now exists m. }
    destruct (C w1) as (_ & _ & _ & (d & Hh & HF) & _).
    rewrite (assigned_app w _ ([(nodeId node, Src, pick urls (random w) (drawn w))] ++ d)).
    + rewrite applications_app, (applications_elsewhere _ d).
      * unfold applications. simpl. now rewrite Nat.eqb_refl.
      * eapply Forall_impl; [exact HF|]. intros e He Heq. simpl in He.
        rewrite Heq in He. now apply (querySelectorAll_not_self node "img").
    + rewrite Hh, H1. now rewrite <- app_assoc.
  - simpl. rewrite (assigned_app w _ _ H1). unfold applications. simpl.
    now rewrite Nat.eqb_refl.
Qed.

(** Both branches run on an image element: its own source is assigned once,
    and so is that of an image below it. *)
Example nested_img_history :
  history (Cageify.callback Sample.urls [mkRecord "childList" 1 [Sample.nested_img] []]
             Sample.world).2 =
  [(20%nat, Src, VString "https://a.example/1.jpg");
   (21%nat, Src, VString "https://a.example/1.jpg")].
Proof. reflexivity. Qed.

(** ** Batches of mutation records *)

Lemma content_observerCallback_forget urls records w :
  Content.observerCallback urls (map forget_removed records) w =
  Content.observerCallback urls records w.
Proof.
  unfold Content.observerCallback. revert w.
  induction records as [|r rs IH]; intros w; [reflexivity|].
  simpl. unfold bind.
  destruct (if String.eqb (type r) "childList" then _ else _) as [[[]|e] w1];
    [apply IH|reflexivity].
Qed.

Lemma callback_forget urls records w :
  Cageify.callback urls (map forget_removed records) w = Cageify.callback urls records w.
Proof.
  unfold Cageify.callback. revert w.
  induction records as [|r rs IH]; intros w; [reflexivity|].
  simpl. unfold bind.
  destruct (forEach (Cageify.callback_node urls) (addedNodes r) w) as [[[]|e] w1];
    [apply IH|reflexivity].
Qed.

Lemma content_observerCallback_nothing_added urls records w :
  Forall (fun r => addedNodes r = []) records ->
  Content.observerCallback urls records w = (Normal tt, w).
Proof.
  unfold Content.observerCallback. induction 1 as [|r rs Hr _ IH]; [reflexivity|].
  simpl. rewrite Hr. simpl. unfold bind.
  now destruct (String.eqb (type r) "childList").
Qed.

Lemma callback_nothing_added urls records w :
  Forall (fun r => addedNodes r = []) records ->
  Cageify.callback urls records w = (Normal tt, w).
Proof.
  unfold Cageify.callback. induction 1 as [|r rs Hr _ IH]; [reflexivity|].
  simpl. now rewrite Hr.
Qed.

Lemma confined_untouched {A} (S : nat -> Prop) (m : M A) w i :
  confined S m -> ~ S i ->
  props (m w).2 !! i = props w !! i /\
  Forall (fun e : nat * Attr * value => e.1.1 <> i) (assigned w (m w).2).
Proof.
  intros C Hi. destruct (C w) as (_ & _ & _ & (d & Hh & HF) & Hp & _).
  split; [now apply Hp|]. rewrite (assigned_app _ _ _ Hh).
  eapply Forall_impl; [exact HF|]. intros e He Heq. apply Hi. now rewrite <- Heq.
Qed.

(** C6. The callbacks never read the removed nodes of a record: a batch
    and the same batch with its removed nodes forgotten are processed
    alike. A node that is not among the added nodes of the batch and their
    descendants, such as a removed image, keeps its fields and is the
    target of no assignment attempt. A batch that only removes nodes is
    processed without any effect and without a throw. *)
Theorem removed_nodes_are_ignored (urls : list string)
    (records : list MutationRecord) (w : World) :
  (Content.observerCallback urls records w
     = Content.observerCallback urls (map forget_removed records) w /\
   Cageify.callback urls records w
     = Cageify.callback urls (map forget_removed records) w) /\
  (forall i, i ∉ added_ids records ->
     (props (Content.observerCallback urls records w).2 !! i = props w !! i /\
      Forall (fun e => e.1.1 <> i) (assigned w (Content.observerCallback urls records w).2)) /\
     (props (Cageify.callback urls records w).2 !! i = props w !! i /\
      Forall (fun e => e.1.1 <> i) (assigned w (Cageify.callback urls records w).2))) /\
  (Forall (fun r => addedNodes r = []) records ->
     Content.observerCallback urls records w = (Normal tt, w) /\
     Cageify.callback urls records w = (Normal tt, w)).
Proof.
  split; [|split].
  - now rewrite content_observerCallback_forget, callback_forget.
  - intros i Hi. split.
    + apply (confined_untouched _ _ w i (confined_content_observerCallback urls records) Hi).
    + apply (confined_untouched _ _ w i (confined_callback urls records) Hi).
  - intros H. split.
    + now apply content_observerCallback_nothing_added.
    + now apply callback_nothing_added.
Qed.

(** Image 2 is removed from the body while a gallery is added: the gallery
    is processed, image 2 is left as it was. *)
Lemma removed_nodes_are_ignored_witness :
  props (Content.observerCallback Sample.urls
           [mkRecord "childList" 1 [Sample.gallery] [Sample.img 2]] Sample.world).2 !! 2%nat
    = props Sample.world !! 2%nat /\
  Content.observerCallback Sample.urls
    [removal_record 1 [Sample.img 2]] Sample.world = (Normal tt, Sample.world).
Proof.
  split.
  - apply (proj1 (proj2 (removed_nodes_are_ignored Sample.urls
             [mkRecord "childList" 1 [Sample.gallery] [Sample.img 2]] Sample.world)) 2%nat).
    apply (bool_decide_unpack _). reflexivity.
  - apply (proj2 (proj2 (removed_nodes_are_ignored Sample.urls
             [removal_record 1 [Sample.img 2]] Sample.world))).
    repeat constructor.
Defined.

(** ** Attribute mutations are not observed *)

Lemma config_attribute_blind w :
  Forall (fun p : nat * MutationObserverInit => p.2 = Content.config) (observers w) ->
  attribute_blind w.
Proof.
  unfold attribute_blind. intros H. eapply Forall_impl; [exact H|].
  intros [i o]. simpl. now intros ->.
Qed.

Lemma deliver_queue (callback : list MutationRecord -> M unit) S w :
  (forall records, confined S (callback records)) ->
  attribute_blind w -> queue (deliver callback w).2 = [].
Proof.
  intros C Hb. unfold deliver. destruct (queue w) as [|r rs] eqn:E; [exact E|].
  destruct (C (r :: rs) (set_queue [] w)) as (_ & _ & _ & _ & _ & Hq).
  now apply Hq.
Qed.

(** C5. The script registers its observer for child-list changes in the
    whole subtree and not for attribute changes. While these are the only
    registrations, the assignments of [cageifyImage] queue no record, so
    processing a batch leaves the record queue as it was, a delivery leaves
    it empty, and the next delivery has nothing to process; and the
    callback of the content script does nothing on a record that is not of
    type [childList]. *)
Theorem no_reprocessing_loop (urls : list string) (records : list MutationRecord)
    (img : Node) (w : World) :
  Forall (fun p => p.2 = Content.config) (observers w) ->
  (childList Content.config = true /\ subtree Content.config = true /\
   wants Content.config "attributes" = false /\ Cageify.options = Content.config) /\
  queue (Content.cageifyImage urls img w).2 = queue w /\
  queue (Content.observerCallback urls records w).2 = queue w /\
  queue (Cageify.callback urls records w).2 = queue w /\
  queue (deliver (Content.observerCallback urls) w).2 = [] /\
  deliver (Content.observerCallback urls) (deliver (Content.observerCallback urls) w).2
    = (Normal tt, (deliver (Content.observerCallback urls) w).2) /\
  Content.observerCallback urls
    (List.filter (fun r => negb (String.eqb (type r) "childList")) records) w
    = (Normal tt, w).
Proof.
  intros Ho. pose proof (config_attribute_blind w Ho) as Hb.
  split; [now repeat split|].
  split.
  { destruct (confined_content_cageifyImage (fun _ => True) urls img I w)
      as (_ & _ & _ & _ & _ & Hq). now apply Hq. }
  split.
  { destruct (confined_content_observerCallback urls records w)
      as (_ & _ & _ & _ & _ & Hq). now apply Hq. }
  split.
  { destruct (confined_callback urls records w) as (_ & _ & _ & _ & _ & Hq). now apply Hq. }
  assert (Hq : queue (deliver (Content.observerCallback urls) w).2 = []).
  { apply (deliver_queue _ (fun _ => True)); [|exact Hb].
    intros rs. eapply confined_mono; [|apply confined_content_observerCallback]. done. }
  split; [exact Hq|]. split.
  - unfold deliver at 1. now rewrite Hq.
  - unfold Content.observerCallback. clear. revert w.
    induction records as [|r rs IH]; intros w; [reflexivity|].
    simpl. destruct (String.eqb (type r) "childList") eqn:E; simpl; [apply IH|].
    rewrite E. simpl. apply IH.
Qed.

Lemma no_reprocessing_loop_witness :
  queue (Content.observerCallback Sample.urls
           [mkRecord "childList" 1 [Sample.gallery] []] Sample.observed_world).2
    = queue Sample.observed_world /\
  queue (deliver (Content.observerCallback Sample.urls)
           (set_queue [mkRecord "childList" 1 [Sample.gallery] []] Sample.observed_world)).2
    = [].
Proof.
  split.
  - apply (no_reprocessing_loop Sample.urls [mkRecord "childList" 1 [Sample.gallery] []]
             Sample.gallery Sample.observed_world).
    repeat constructor.
  - apply (no_reprocessing_loop Sample.urls [] Sample.gallery
             (set_queue [mkRecord "childList" 1 [Sample.gallery] []] Sample.observed_world)).
    repeat constructor.
Defined.

(** The queue model does tell attribute mutations apart: had the observer
    been registered for attributes, each assignment of [cageifyImage] would
    queue a record of its own. *)
Example attribute_observer_would_be_notified :
  map type
    (queue (Content.cageifyImage Sample.urls (Sample.img 2)
              (set_observers [(1%nat, mkInit true true false true)] Sample.world)).2)
  = ["attributes"; "attributes"].
Proof. reflexivity. Qed.

(** ** The activation and its handler *)

Lemma content_main_never_throws urls doc w : (Content.main urls doc w).1 = Normal tt.
Proof.
  unfold Content.main, bind, console_log, try_catch.
  destruct (Content.activation urls doc _) as [[[]|e] w1]; [reflexivity|now destruct e].
Qed.

(** C7, as amended. An error thrown while the [try] block runs (the check
    of the list, the initial sweep, the registration of the observer) is
    caught by the [catch] of the script: the script completes normally, and
    the console gets one more error entry, with the message of the error
    when it is an [Error], with the thrown value itself otherwise. *)
Theorem activation_errors_are_caught (urls : list string) (doc : Document)
    (w : World) (e : thrown) (w1 : World) :
  Content.activation urls doc (loaded w) = (Throw e, w1) ->
  Content.main urls doc w = (Normal tt, set_console (console w1 ++ [report e]) w1).
Proof.
  intros H. unfold Content.main, bind, console_log, try_catch. fold (loaded w).
  rewrite H. now destruct e.
Qed.

Lemma activation_errors_are_caught_witness :
  Content.main Sample.urls Sample.page Sample.faulty_world =
  (Normal tt,
   set_console
     (console (Content.activation Sample.urls Sample.page (loaded Sample.faulty_world)).2
        ++ [ConsoleError [VString "Cageify TS Error:";
                          VString "Cannot assign to read only property"]])
     (Content.activation Sample.urls Sample.page (loaded Sample.faulty_world)).2).
Proof.
  apply (activation_errors_are_caught Sample.urls Sample.page Sample.faulty_world
           (ErrorObject "Cannot assign to read only property")).
  reflexivity.
Defined.

(** The same for a script started before the body exists: [observe] throws
    and the handler reports it. *)
Example early_page_error_is_caught :
  (Content.main Sample.urls Sample.early_page Sample.world).1 = Normal tt /\
  last (console (Content.main Sample.urls Sample.early_page Sample.world).2) =
  Some (ConsoleError [VString "Cageify TS Error:";
     VString "Failed to execute 'observe' on 'MutationObserver': parameter 1 is not of type 'Node'."]).
Proof. split; reflexivity. Qed.

(** C7, as stated, fails for the callback: after an activation that
    completed normally, the delivery of a record that adds an image whose
    property setter throws ends in that throw, which no handler of the
    script catches and nothing logs. *)
Lemma callback_error_is_not_caught :
  let activated := (Content.main Sample.urls Sample.page Sample.hostile_world).2 in
  let batch := [mkRecord "childList" 1 [Sample.late_img] []] in
  (Content.main Sample.urls Sample.page Sample.hostile_world).1 = Normal tt /\
  observers activated = [(1%nat, Content.config)] /\
  (deliver (Content.observerCallback Sample.urls) (set_queue batch activated)).1
    = Throw (ErrorObject "Cannot assign to read only property") /\
  console (deliver (Content.observerCallback Sample.urls) (set_queue batch activated)).2
    = console activated.
Proof. repeat split; reflexivity. Qed.

(** ** The per-image replacement of the two files *)

Lemma content_cageifyImage_is_replaceOne urls img w :
  Content.cageifyImage urls img w = replaceOne_spec urls img w.
Proof. reflexivity. Qed.

(** C8, as stated, fails: on an image with a source set, [replaceImage] of
    the class-based variant leaves the source set in place. *)
Lemma replaceImage_keeps_srcset :
  srcset (fields_of (Cageify.replaceImage Sample.urls (Sample.img 2) Sample.world).2 2%nat)
    = VString "a-2x.png 2x" /\
  srcset (fields_of (Cageify.replaceImage Sample.urls (Sample.img 2) Sample.world).2 2%nat)
    <> VString "" /\
  srcset (fields_of (Content.cageifyImage Sample.urls (Sample.img 2) Sample.world).2 2%nat)
    = VString "".
Proof. repeat split; [discriminate]. Qed.

(** C8, as amended. For the same draw and the same image (whose setters do
    not throw), both files assign the picked identifier to the source
    field. [cageifyImage] of the content script is the [replaceOne] of the
    specification and also clears the source-set field; [replaceImage] of
    the class-based variant leaves the source-set field as it was. *)
Theorem replacement_in_both_variants (urls : list string) (img : Node) (w : World) :
  faults w !! nodeId img = None ->
  let picked := pick urls (random w) (drawn w) in
  let after_content := (Content.cageifyImage urls img w).2 in
  let after_class := (Cageify.replaceImage urls img w).2 in
  Content.cageifyImage urls img w = replaceOne_spec urls img w /\
  (Content.cageifyImage urls img w).1 = Normal tt /\
  (Cageify.replaceImage urls img w).1 = Normal tt /\
  src (fields_of after_content (nodeId img)) = picked /\
  src (fields_of after_class (nodeId img)) = picked /\
  srcset (fields_of after_content (nodeId img)) = VString "" /\
  srcset (fields_of after_class (nodeId img)) = srcset (fields_of w (nodeId img)).
Proof.
  intros H picked after_content after_class.
  split; [reflexivity|].
  destruct (content_cageifyImage_ok urls img w H) as (w1 & E1 & Hp1 & _).
  subst after_content after_class. rewrite E1.
  unfold Cageify.replaceImage.
  rewrite (bind_normal _ _ _ _ _ (cageify_getRandomCageUrl_eq urls w)).
  destruct (set_attribute_ok img Src picked (set_drawn (S (drawn w)) w) H)
    as (w2 & E2 & Hp2 & _).
  fold picked. rewrite E2. simpl. unfold fields_of at 1 2 3 4.
  rewrite Hp1, Hp2, !lookup_insert_eq. simpl. now repeat split.
Qed.

Lemma replacement_in_both_variants_witness :
  src (fields_of (Content.cageifyImage Sample.urls (Sample.img 2) Sample.world).2 2%nat)
    = VString "https://a.example/1.jpg" /\
  src (fields_of (Cageify.replaceImage Sample.urls (Sample.img 2) Sample.world).2 2%nat)
    = VString "https://a.example/1.jpg" /\
  srcset (fields_of (Cageify.replaceImage Sample.urls (Sample.img 2) Sample.world).2 2%nat)
    = srcset (fields_of Sample.world 2%nat).
Proof.
  destruct (replacement_in_both_variants Sample.urls (Sample.img 2) Sample.world)
    as (_ & _ & _ & H1 & H2 & _ & H3).
  - reflexivity.
  - exact (conj H1 (conj H2 H3)).
Defined.

(** ** The check of the list *)

Lemma forEach_console_assert {A} (c : A -> bool) (msg : A -> string) l : forall w,
  exists out, forEach (fun x => console_assert (c x) (msg x)) l w
              = (Normal tt, set_console (console w ++ out) w).
Proof.
  induction l as [|x l IH]; intros w.
  - exists []. simpl. rewrite app_nil_r. now destruct w.
  - simpl. unfold bind, console_assert at 1. destruct (c x).
    + apply IH.
    + destruct (IH (set_console (console w ++ [AssertionFailed (msg x)]) w)) as (out & E).
      exists (AssertionFailed (msg x) :: out). rewrite E. simpl.
      now rewrite <- app_assoc.
Qed.

Lemma content_checkRep_console urls w :
  exists out, Content.checkRep urls w = (Normal tt, set_console (console w ++ out) w).
Proof.
  unfold Content.checkRep.
  rewrite (bind_normal _ _ w tt w) by reflexivity.
  unfold bind, console_assert at 1.
  destruct (0 <? Z.of_nat (length urls)).
  - apply forEach_console_assert.
  - destruct (forEach_console_assert
        (fun url => 0 <? Z.of_nat (String.length url))
        (fun url => "RI Fail: Invalid URL entry: " +:+ url) urls
        (set_console (console w ++ [AssertionFailed "RI Fail: CAGE_URLS is empty."]) w))
      as (out & E).
    exists (AssertionFailed "RI Fail: CAGE_URLS is empty." :: out). rewrite E. simpl.
    now rewrite <- app_assoc.
Qed.

(** [checkRep] only writes on the console; it cannot stop the script. *)
Lemma content_checkRep_never_throws urls w : (Content.checkRep urls w).1 = Normal tt.
Proof. destruct (content_checkRep_console urls w) as (out & ->). reflexivity. Qed.

(** C3 on the code. With the empty list, the content script prints the
    failed assertion and goes on: the sweep assigns [undefined] to the
    source of the images and the observer is registered; the class-based
    script does the same. With a list holding the empty string the failed
    assertion is printed and the empty string assigned. A list holding a
    string that is no URL passes the check of the content script
    silently. *)
Theorem invalid_list_is_not_rejected :
  let r := Content.main [] Sample.page Sample.world in
  let k := Cageify.main [] Sample.page Sample.world in
  let s := Content.main [""] Sample.page Sample.world in
  (r.1 = Normal tt /\
   console r.2 =
     [ConsoleLog [VString "Cageify TS Content Script Loaded!"];
      AssertionFailed "RI Fail: CAGE_URLS is empty.";
      ConsoleLog [VString "Cageify TS found 2 images. Replacing..."];
      ConsoleLog [VString "Cageify TS replacement complete!"]] /\
   fields_of Sample.world 2%nat = mkFields (VString "a.png") (VString "a-2x.png 2x") /\
   fields_of r.2 2%nat = mkFields VUndefined (VString "a-2x.png 2x") /\
   observers r.2 = [(1%nat, Content.config)]) /\
  (k.1 = Normal tt /\
   console k.2 = [ConsoleLog [VString "already using typescript"];
                  AssertionFailed "CAGE_URLS must not be empty"] /\
   fields_of k.2 2%nat = mkFields VUndefined (VString "a-2x.png 2x")) /\
  (s.1 = Normal tt /\
   console s.2 =
     [ConsoleLog [VString "Cageify TS Content Script Loaded!"];
      AssertionFailed "RI Fail: Invalid URL entry: ";
      ConsoleLog [VString "Cageify TS found 2 images. Replacing..."];
      ConsoleLog [VString "Cageify TS replacement complete!"]] /\
   fields_of s.2 2%nat = mkFields (VString "") (VString "a-2x.png 2x")) /\
  console (Content.checkRep ["not a url"] Sample.world).2 = [] /\
  src (fields_of (Content.main ["not a url"] Sample.page Sample.world).2 2%nat)
    = VString "not a url".
Proof. cbv zeta. repeat split. Qed.

(** ** The initial sweep *)

Lemma replaceImage_ok urls n w :
  faults w !! nodeId n = None ->
  exists w', Cageify.replaceImage urls n w = (Normal tt, w') /\
    props w' = <[nodeId n := with_attr Src (pick urls (random w) (drawn w))
                               (fields_of w (nodeId n))]> (props w) /\
    faults w' = faults w /\ random w' = random w /\ drawn w' = S (drawn w) /\
    console w' = console w /\ observers w' = observers w.
Proof.
  intros H. unfold Cageify.replaceImage.
  rewrite (bind_normal _ _ _ _ _ (cageify_getRandomCageUrl_eq urls w)).
  destruct (set_attribute_ok n Src (pick urls (random w) (drawn w))
              (set_drawn (S (drawn w)) w) H)
    as (w1 & E1 & Hp1 & Hf1 & Hr1 & Hd1 & Hc1 & Ho1 & _).
  exists w1. now repeat split.
Qed.

Lemma forEach_replaceImage_ok urls l : forall w,
  0 < Z.of_nat (length urls) ->
  (forall k, unit_interval (random w k)) ->
  (forall m, m ∈ l -> faults w !! nodeId m = None) ->
  exists w', forEach (Cageify.replaceImage urls) l w = (Normal tt, w') /\
    faults w' = faults w /\ random w' = random w /\
    console w' = console w /\ observers w' = observers w /\
    (forall i, i ∉ map nodeId l -> props w' !! i = props w !! i) /\
    (forall i, i ∈ map nodeId l ->
       exists u, u ∈ urls /\ src (fields_of w' i) = VString u).
Proof.
  induction l as [|n l IH]; intros w Hn Hr Hf.
  - exists w. repeat split; try reflexivity. intros i Hi. inversion Hi.
  - destruct (replaceImage_ok urls n w) as (w1 & E1 & Hp1 & Hf1 & Hr1 & _ & Hc1 & Ho1);
      [apply Hf; left|].
    destruct (IH w1 Hn) as (w2 & E2 & Hf2 & Hr2 & Hc2 & Ho2 & Hout & Hin).
    { intros k. rewrite Hr1. apply Hr. }
    { intros m Hm. rewrite Hf1. apply Hf. now right. }
    exists w2. split; [simpl; now rewrite (bind_normal _ _ _ _ _ E1)|].
    repeat split; try congruence.
    + intros i Hi. simpl in Hi. apply not_elem_of_cons in Hi as [Hne Hi].
      rewrite (Hout i Hi), Hp1. now apply lookup_insert_ne.
    + intros i Hi. destruct (decide (i ∈ map nodeId l)) as [Hl|Hl]; [now apply Hin|].
      simpl in Hi. apply elem_of_cons in Hi as [->|Hi]; [|contradiction].
      destruct (pick_member urls (random w) (drawn w) Hn (Hr _)) as (u & Hu & Hmem).
      exists u. split; [exact Hmem|].
      unfold fields_of at 1. rewrite (Hout _ Hl), Hp1, lookup_insert_eq. simpl. exact Hu.
Qed.

(** What the initial sweep of the content script does achieve: with a list
    that is not empty, draws in [0, 1) and images whose setters do not
    throw, every image of the document ends with a member of the list as
    its source. *)
Lemma content_sweep_sources urls doc w :
  0 < Z.of_nat (length urls) ->
  (forall k, unit_interval (random w k)) ->
  (forall m, m ∈ getElementsByTagName doc "img" -> faults w !! nodeId m = None) ->
  forall m, m ∈ getElementsByTagName doc "img" ->
    exists u, u ∈ urls /\
      src (fields_of (Content.main urls doc w).2 (nodeId m)) = VString u.
Proof.
  intros Hn Hr Hf m Hm.
  change (Content.main urls doc w)
    with (try_catch (Content.activation urls doc) (Content.handler) (loaded w)).
  unfold try_catch, Content.activation.
  destruct (content_checkRep_console urls (loaded w)) as (out & E0).
  rewrite (bind_normal _ _ _ _ _ E0).
  set (w1 := set_console _ (loaded w)).
  unfold bind at 1, console_log at 1. cbv iota beta.
  set (w2 := set_console _ w1).
  destruct (forEach_replaceImage_ok urls (getElementsByTagName doc "img") w2 Hn Hr Hf)
    as (w3 & E3 & _ & _ & _ & _ & _ & Hin).
  change (forEach (fun img => bind (Content.getRandomCageUrl urls)
                                (fun newSrc => set_attribute img Src newSrc)))
    with (forEach (Cageify.replaceImage urls)).
  rewrite (bind_normal _ _ _ _ _ E3).
  destruct (Hin (nodeId m)) as (u & Hu & Hs).
  { apply list_elem_of_fmap. now exists m. }
  exists u. split; [exact Hu|]. rewrite <- Hs.
  unfold bind, console_log, observe.
  destruct (body doc) as [b|]; simpl; reflexivity.
Qed.


(** After the content script ran in a world without other registrations,
    every registration is the one of the script. *)
Lemma content_main_observers urls doc w :
  Forall (fun p => p.2 = Content.config) (observers w) ->
  Forall (fun p => p.2 = Content.config) (observers (Content.main urls doc w).2).
Proof.
  intros Ho.
  change (Content.main urls doc w)
    with (try_catch (Content.activation urls doc) (Content.handler) (loaded w)).
  unfold try_catch, Content.activation.
  destruct (content_checkRep_console urls (loaded w)) as (out & E0).
  rewrite (bind_normal _ _ _ _ _ E0).
  set (w1 := set_console _ (loaded w)).
  unfold bind at 1, console_log at 1. cbv iota beta.
  set (w2 := set_console _ w1).
  change (forEach (fun img => bind (Content.getRandomCageUrl urls)
                                (fun newSrc => set_attribute img Src newSrc)))
    with (forEach (Cageify.replaceImage urls)).
  assert (C : confined (fun _ => True)
                (forEach (Cageify.replaceImage urls) (getElementsByTagName doc "img"))).
  { apply confined_forEach. intros m _. now apply confined_replaceImage. }
  destruct (C w2) as (_ & _ & Ho3 & _). unfold bind at 1.
  destruct (forEach (Cageify.replaceImage urls) (getElementsByTagName doc "img") w2)
    as [[[]|e] w3]; simpl in Ho3.
  - unfold bind, console_log, observe.
    destruct (body doc) as [b|]; simpl; rewrite Ho3; simpl.
    + apply Forall_app. split; [exact Ho|]. now repeat constructor.
    + exact Ho.
  - destruct e; simpl; now rewrite Ho3.
Qed.

Lemma keeps_srcset_ret {A} (a : A) : keeps_srcset (ret a).
Proof. now intros w i. Qed.

Lemma keeps_srcset_bind {A B} (m : M A) (k : A -> M B) :
  keeps_srcset m -> (forall a, keeps_srcset (k a)) -> keeps_srcset (bind m k).
Proof.
  intros Hm Hk w i. specialize (Hm w i). unfold bind.
  destruct (m w) as [[a|e] w1]; simpl in *; [|exact Hm].
  now rewrite Hk.
Qed.

Lemma keeps_srcset_forEach {A} (f : A -> M unit) l :
  (forall x, keeps_srcset (f x)) -> keeps_srcset (forEach f l).
Proof.
  intros H. induction l as [|x l IH]; [apply keeps_srcset_ret|].
  apply keeps_srcset_bind; [apply H|now intros _].
Qed.

Lemma keeps_srcset_try_catch {A} (m : M A) (h : thrown -> M A) :
  keeps_srcset m -> (forall e, keeps_srcset (h e)) -> keeps_srcset (try_catch m h).
Proof.
  intros Hm Hh w i. specialize (Hm w i). unfold try_catch.
  destruct (m w) as [[a|e] w1]; simpl in *; [exact Hm|].
  now rewrite Hh.
Qed.

Lemma keeps_srcset_console_log args : keeps_srcset (console_log args).
Proof. now intros w i. Qed.

Lemma keeps_srcset_console_error args : keeps_srcset (console_error args).
Proof. now intros w i. Qed.

Lemma keeps_srcset_console_assert c msg : keeps_srcset (console_assert c msg).
Proof. intros w i. unfold console_assert. now destruct c. Qed.

Lemma keeps_srcset_Math_random : keeps_srcset Math_random.
Proof. now intros w i. Qed.

Lemma keeps_srcset_observe tgt o : keeps_srcset (observe tgt o).
Proof.
  intros w i. unfold observe. destruct tgt; [|reflexivity].
  now destruct (childList o || attributes o || characterData o).
Qed.

Lemma keeps_srcset_set_src n v : keeps_srcset (set_attribute n Src v).
Proof.
  intros w i. unfold set_attribute.
  destruct (faults w !! nodeId n); [reflexivity|].
  unfold queue_record. simpl.
  assert (E : srcset (default no_fields
                (<[nodeId n := with_attr Src v (fields_of w (nodeId n))]> (props w) !! i))
              = srcset (fields_of w i)).
  { destruct (decide (nodeId n = i)) as [<-|Hne].
    - now rewrite lookup_insert_eq.
    - now rewrite lookup_insert_ne. }
  now destruct (existsb _ _).
Qed.

Lemma keeps_srcset_replaceImage urls n : keeps_srcset (Cageify.replaceImage urls n).
Proof.
  apply keeps_srcset_bind.
  - apply keeps_srcset_bind; [apply keeps_srcset_Math_random|].
    intros r. apply keeps_srcset_ret.
  - intros v. apply keeps_srcset_set_src.
Qed.

(** The initial sweep of either script, indeed the whole of either script,
    leaves every source set as it was. *)
Lemma content_main_keeps_srcset urls doc : keeps_srcset (Content.main urls doc).
Proof.
  apply keeps_srcset_bind; [apply keeps_srcset_console_log|]. intros _.
  apply keeps_srcset_try_catch.
  - apply keeps_srcset_bind.
    { repeat (apply keeps_srcset_bind; [apply keeps_srcset_console_assert|]; intros _).
      apply keeps_srcset_forEach. intros url. apply keeps_srcset_console_assert. }
    intros _. apply keeps_srcset_bind; [apply keeps_srcset_console_log|]. intros _.
    apply keeps_srcset_bind.
    { apply keeps_srcset_forEach. intros img. apply (keeps_srcset_replaceImage urls img). }
    intros _. apply keeps_srcset_bind; [apply keeps_srcset_console_log|]. intros _.
    apply keeps_srcset_observe.
  - intros [msg|v]; apply keeps_srcset_console_error.
Qed.

Lemma cageify_main_keeps_srcset urls doc : keeps_srcset (Cageify.main urls doc).
Proof.
  apply keeps_srcset_bind; [apply keeps_srcset_console_log|]. intros _.
  apply keeps_srcset_bind.
  - apply keeps_srcset_bind; [|intros _; apply keeps_srcset_ret].
    apply keeps_srcset_bind; [apply keeps_srcset_console_assert|]. intros _.
    apply keeps_srcset_forEach. intros url.
    apply keeps_srcset_bind; [apply keeps_srcset_console_assert|]. intros _.
    apply keeps_srcset_console_assert.
  - intros cageify. apply keeps_srcset_bind; [|intros _; apply keeps_srcset_observe].
    apply keeps_srcset_forEach. intros img. apply keeps_srcset_replaceImage.
Qed.

(** C2 on the code. The sample page has two images; image 2 has a source
    set. The list satisfies the invariant and no setter throws. After the
    content script (and after the class-based one) image 2 has a member of
    the list as its source, but its source set is the one it had, not the
    empty string: the sweep assigns [src] only, where [cageifyImage] also
    clears [srcset]. *)
Theorem sweep_leaves_srcset :
  let after := (Content.main Sample.urls Sample.page Sample.world).2 in
  let after_class := (Cageify.main Sample.urls Sample.page Sample.world).2 in
  rep_invariant Sample.urls = true /\
  map nodeId (getElementsByTagName Sample.page "img") = [2; 5]%nat /\
  fields_of Sample.world 2%nat = mkFields (VString "a.png") (VString "a-2x.png 2x") /\
  fields_of after 2%nat
    = mkFields (VString "https://a.example/1.jpg") (VString "a-2x.png 2x") /\
  srcset (fields_of after 2%nat) <> VString "" /\
  fields_of after_class 2%nat
    = mkFields (VString "https://a.example/1.jpg") (VString "a-2x.png 2x") /\
  srcset (fields_of (Content.cageifyImage Sample.urls (Sample.img 2) Sample.world).2 2%nat)
    = VString "".
Proof. cbv zeta. repeat split. discriminate. Qed.

(** ** The invariant and the checks *)

Lemma cageify_checkRep_silent urls w :
  rep_invariant urls = true -> Cageify.checkRep urls w = (Normal tt, w).
Proof.
  unfold rep_invariant, Cageify.checkRep. intros [H1 H2]%andb_true_iff.
  unfold bind at 1, console_assert at 1. rewrite H1. clear H1.
  induction urls as [|u urls IH]; [reflexivity|].
  simpl in H2. apply andb_true_iff in H2 as [[Hu1 Hu2]%andb_true_iff H2].
  simpl. unfold bind at 1 2, console_assert at 1 2. rewrite Hu1, Hu2. now apply IH.
Qed.

Lemma content_checkRep_silent urls w :
  rep_invariant urls = true -> Content.checkRep urls w = (Normal tt, w).
Proof.
  unfold rep_invariant, Content.checkRep. intros [H1 H2]%andb_true_iff.
  rewrite (bind_normal _ _ w tt w) by reflexivity.
  unfold bind at 1, console_assert at 1.
  apply negb_true_iff, Z.eqb_neq in H1.
  destruct (Z.ltb_spec 0 (Z.of_nat (length urls))) as [_|Hle]; [|lia]. clear H1.
  induction urls as [|u urls IH]; [reflexivity|].
  simpl in H2. apply andb_true_iff in H2 as [[Hu1 _]%andb_true_iff H2].
  simpl. unfold bind at 1, console_assert at 1.
  apply negb_true_iff, Z.eqb_neq in Hu1.
  destruct (Z.ltb_spec 0 (Z.of_nat (String.length u))) as [_|Hle]; [|lia].
  now apply IH.
Qed.

(** * Further properties *)

(** ** What the checks print *)

Lemma prints_console_assert c msg :
  prints (console_assert c msg) (if c then [] else [AssertionFailed msg]).
Proof.
  intros w. unfold console_assert. destruct c; [|reflexivity].
  rewrite app_nil_r. now destruct w.
Qed.

Lemma prints_bind m1 m2 o1 o2 :
  prints m1 o1 -> prints m2 o2 -> prints (bind m1 (fun _ => m2)) (o1 ++ o2).
Proof.
  intros H1 H2 w. unfold bind. rewrite H1, H2. simpl. now rewrite app_assoc.
Qed.

Lemma prints_forEach {A} (f : A -> M unit) (g : A -> list ConsoleEntry) l :
  (forall x, prints (f x) (g x)) -> prints (forEach f l) (flat_map g l).
Proof.
  intros H. induction l as [|x l IH].
  - intros w. simpl. rewrite app_nil_r. now destruct w.
  - simpl. now apply prints_bind.
Qed.

Lemma flat_map_nil_iff {A B} (g : A -> list B) (c : A -> bool) l :
  (forall x, g x = [] <-> c x = true) -> flat_map g l = [] <-> forallb c l = true.
Proof.
  intros H. induction l as [|x l IH]; simpl; [tauto|].
  rewrite andb_true_iff, <- IH, <- H. split.
  - now intros [? ?]%app_eq_nil.
  - now intros [-> ->].
Qed.

Lemma cageify_checkRep_prints (urls : list string) :
  exists out, prints (Cageify.checkRep urls) out /\ (out = [] <-> rep_invariant urls = true).
Proof.
  set (g := fun url : string =>
    (if negb (Z.of_nat (String.length url) =? 0) then []
     else [AssertionFailed "CAGE_URLS must not contain empty strings"]) ++
    (if String.prefix "https://" url then []
     else [AssertionFailed "CAGE_URLS must contain valid urls"])).
  set (o1 := if negb (Z.of_nat (length urls) =? 0) then []
             else [AssertionFailed "CAGE_URLS must not be empty"]).
  assert (P : prints (Cageify.checkRep urls) (o1 ++ flat_map g urls)).
  { apply prints_bind; [apply prints_console_assert|].
    apply prints_forEach. intros url.
    apply prints_bind; apply prints_console_assert. }
  exists (o1 ++ flat_map g urls). split; [exact P|].
  unfold rep_invariant. rewrite andb_true_iff.
  rewrite <- (flat_map_nil_iff g
    (fun url => negb (Z.of_nat (String.length url) =? 0) && String.prefix "https://" url)).
  - subst o1. destruct (negb (Z.of_nat (length urls) =? 0)); split.
    + now intros [_ ?]%app_eq_nil.
    + now intros [_ ->].
    + discriminate.
    + now intros [? _].
  - intros url. subst g. cbv beta.
    destruct (negb (Z.of_nat (String.length url) =? 0)),
      (String.prefix "https://" url); simpl; split; (reflexivity || discriminate).
Qed.

(** X1. The constructor of the class never rejects a list: it completes
    normally with the list it was given, and [checkRep] only adds to the
    console; what it adds is empty exactly for the lists that satisfy the
    representation invariant. *)
Theorem cageify_checkRep_silent_iff (urls : list string) :
  exists out,
    (forall w, Cageify.checkRep urls w = (Normal tt, set_console (console w ++ out) w)) /\
    (forall w, Cageify.constructor urls w
               = (Normal urls, set_console (console w ++ out) w)) /\
    (out = [] <-> rep_invariant urls = true).
Proof.
  destruct (cageify_checkRep_prints urls) as (out & P & I).
  exists out. split; [exact P|]. split; [|exact I].
  intros w. unfold Cageify.constructor, bind. now rewrite P.
Qed.

Lemma cageify_checkRep_silent_iff_witness :
  Cageify.constructor Sample.urls Sample.world = (Normal Sample.urls, Sample.world).
Proof.
  destruct (cageify_checkRep_silent_iff Sample.urls) as (out & _ & Hc & Hi).
  rewrite Hc. rewrite (proj2 Hi eq_refl). reflexivity.
Defined.

Lemma rep_invariant_content_invariant urls :
  rep_invariant urls = true -> content_invariant urls = true.
Proof.
  unfold rep_invariant, content_invariant. intros [H1 H2]%andb_true_iff.
  apply andb_true_iff. split.
  - apply negb_true_iff, Z.eqb_neq in H1. apply Z.ltb_lt. lia.
  - rewrite forallb_forall in *. intros u Hu. specialize (H2 u Hu).
    apply andb_true_iff in H2 as [H2 _].
    apply negb_true_iff, Z.eqb_neq in H2. apply Z.ltb_lt. lia.
Qed.

Lemma content_checkRep_prints (urls : list string) :
  exists out, prints (Content.checkRep urls) out /\
              (out = [] <-> content_invariant urls = true).
Proof.
  set (g := fun url : string =>
    if 0 <? Z.of_nat (String.length url) then []
    else [AssertionFailed ("RI Fail: Invalid URL entry: " +:+ url)]).
  set (o1 := if 0 <? Z.of_nat (length urls) then []
             else [AssertionFailed "RI Fail: CAGE_URLS is empty."]).
  assert (P : prints (Content.checkRep urls) (o1 ++ flat_map g urls)).
  { apply (prints_bind _ _ []); [apply (prints_console_assert true)|].
    apply prints_bind; [apply prints_console_assert|].
    apply prints_forEach. intros url. apply prints_console_assert. }
  assert (I : o1 ++ flat_map g urls = [] <-> content_invariant urls = true).
  { unfold content_invariant. rewrite andb_true_iff.
    rewrite <- (flat_map_nil_iff g (fun url => 0 <? Z.of_nat (String.length url))).
    - subst o1. destruct (0 <? Z.of_nat (length urls)); split.
      + now intros [_ ?]%app_eq_nil.
      + now intros [_ ->].
      + discriminate.
      + now intros [? _].
    - intros url. subst g. cbv beta.
      destruct (0 <? Z.of_nat (String.length url)); split; (reflexivity || discriminate). }
  exists (o1 ++ flat_map g urls). split; [exact P|exact I].
Qed.

(** X2. [checkRep] of the content script completes normally and only adds
    to the console; what it adds is empty exactly when the list is not
    empty and holds no empty string. Being a URL is not checked: every list
    that satisfies the representation invariant passes silently, and so
    does any other list of non-empty strings. *)
Theorem content_checkRep_silent_iff (urls : list string) :
  exists out,
    (forall w, Content.checkRep urls w = (Normal tt, set_console (console w ++ out) w)) /\
    (out = [] <-> content_invariant urls = true) /\
    (rep_invariant urls = true -> out = []).
Proof.
  destruct (content_checkRep_prints urls) as (out & P & I).
  exists out. split; [exact P|]. split; [exact I|].
  intros H. apply I. now apply rep_invariant_content_invariant.
Qed.

Lemma content_checkRep_silent_iff_witness :
  Content.checkRep Sample.urls Sample.world = (Normal tt, Sample.world).
Proof.
  destruct (content_checkRep_silent_iff Sample.urls) as (out & Hc & _ & Hi).
  rewrite Hc. rewrite (Hi eq_refl). reflexivity.
Defined.

(** ** The activation, run to its end *)

Lemma forEach_replaceImage_trace urls l : forall w,
  (forall m, m ∈ l -> faults w !! nodeId m = None) ->
  exists w', forEach (Cageify.replaceImage urls) l w = (Normal tt, w') /\
    faults w' = faults w /\ random w' = random w /\
    drawn w' = (drawn w + length l)%nat /\
    console w' = console w /\ observers w' = observers w /\
    history w' = history w ++ replaceImage_trace urls (random w) (drawn w) l.
Proof.
  induction l as [|n l IH]; intros w Hf.
  - exists w. simpl. rewrite app_nil_r, Nat.add_0_r. now repeat split.
  - destruct (replaceImage_ok urls n w) as (w1 & E1 & _ & Hf1 & Hr1 & Hd1 & Hc1 & Ho1);
      [apply Hf; left|].
    pose proof (replaceImage_history urls n w) as Hh1. rewrite E1 in Hh1. simpl in Hh1.
    destruct (IH w1) as (w2 & E2 & Hf2 & Hr2 & Hd2 & Hc2 & Ho2 & Hh2).
    { intros m Hm. rewrite Hf1. apply Hf. now right. }
    exists w2. split; [simpl; now rewrite (bind_normal _ _ _ _ _ E1)|].
    repeat split; try congruence.
    + rewrite Hd2, Hd1. simpl. lia.
    + rewrite Hh2, Hh1, Hr1, Hd1. simpl. now rewrite <- app_assoc.
Qed.

Lemma forEach_throw {A} (f : A -> M unit) l1 x l2 w w1 e w2 :
  forEach f l1 w = (Normal tt, w1) -> f x w1 = (Throw e, w2) ->
  forEach f (l1 ++ x :: l2) w = (Throw e, w2).
Proof.
  intros H1 H2. rewrite forEach_app, (bind_normal _ _ _ _ _ H1). simpl.
  now apply bind_throw.
Qed.

Lemma content_handler_eq e w :
  Content.handler e w = (Normal tt, set_console (console w ++ [report e]) w).
Proof. now destruct e. Qed.

Lemma content_activation_unfold urls doc w :
  exists out,
    (out = [] <-> content_invariant urls = true) /\
    Content.main urls doc w =
    try_catch
      (bind (forEach (Cageify.replaceImage urls) (getElementsByTagName doc "img"))
         (fun _ => bind (console_log [VString "Cageify TS replacement complete!"])
                     (fun _ => observe (body doc) Content.config)))
      (Content.handler)
      (set_console
         (console w ++ [ConsoleLog [VString "Cageify TS Content Script Loaded!"]] ++ out
            ++ [ConsoleLog [VString ("Cageify TS found "
                   +:+ pretty (length (getElementsByTagName doc "img"))
                   +:+ " images. Replacing...")]]) w).
Proof.
  destruct (content_checkRep_prints urls) as (out & Hc & Hi).
  exists out. split; [exact Hi|].
  change (Content.main urls doc w)
    with (try_catch (Content.activation urls doc) (Content.handler) (loaded w)).
  unfold try_catch, Content.activation.
  rewrite (bind_normal _ _ _ _ _ (Hc (loaded w))).
  unfold bind at 1, console_log at 1. cbv iota beta. simpl console.
  replace (set_console _ (set_console _ (loaded w))) with
    (set_console
       (console w ++ [ConsoleLog [VString "Cageify TS Content Script Loaded!"]] ++ out
          ++ [ConsoleLog [VString ("Cageify TS found "
                 +:+ pretty (length (getElementsByTagName doc "img"))
                 +:+ " images. Replacing...")]]) w).
  - reflexivity.
  - unfold set_console, loaded. simpl. now rewrite <- !app_assoc.
Qed.

(** X4. A run of the content script that meets no obstacle (the list
    passes its check, the document has a body, no setter of an image
    throws): the script completes normally; it has assigned the source of
    every image of the document once, in document order, each with the
    next draw, and nothing else; it has printed its three messages, with
    the number of images in the second; and it has added exactly one
    registration, on the body, with its options. *)
Theorem content_main_good_run (urls : list string) (doc : Document) (b : Node) (w : World) :
  content_invariant urls = true ->
  body doc = Some b ->
  (forall m, m ∈ getElementsByTagName doc "img" -> faults w !! nodeId m = None) ->
  let images := getElementsByTagName doc "img" in
  exists w',
    Content.main urls doc w = (Normal tt, w') /\
    history w' = history w ++ replaceImage_trace urls (random w) (drawn w) images /\
    drawn w' = (drawn w + length images)%nat /\
    console w' = console w ++
      [ConsoleLog [VString "Cageify TS Content Script Loaded!"];
       ConsoleLog [VString ("Cageify TS found " +:+ pretty (length images)
                              +:+ " images. Replacing...")];
       ConsoleLog [VString "Cageify TS replacement complete!"]] /\
    observers w' = observers w ++ [(nodeId b, Content.config)] /\
    faults w' = faults w /\ random w' = random w.
Proof.
  intros Hi Hb Hf images.
  destruct (content_activation_unfold urls doc w) as (out & Ho & E).
  rewrite (proj2 Ho Hi) in E. rewrite E. clear E. fold images.
  set (w0 := set_console _ w).
  destruct (forEach_replaceImage_trace urls images w0 Hf)
    as (w1 & E1 & Hf1 & Hr1 & Hd1 & Hc1 & Ho1 & Hh1).
  unfold try_catch. rewrite (bind_normal _ _ _ _ _ E1).
  unfold bind, console_log, observe. rewrite Hb. simpl.
  eexists. split; [reflexivity|]. simpl.
  rewrite Hh1, Hd1, Hc1, Ho1, Hf1, Hr1. subst w0. simpl.
  repeat split. now rewrite <- app_assoc.
Qed.

Lemma content_main_good_run_witness :
  exists w',
    Content.main Sample.urls Sample.page Sample.world = (Normal tt, w') /\
    history w' = [(2%nat, Src, VString "https://a.example/1.jpg");
                  (5%nat, Src, VString "https://a.example/1.jpg")] /\
    observers w' = [(1%nat, Content.config)].
Proof.
  destruct (content_main_good_run Sample.urls Sample.page Sample.page_body Sample.world)
    as (w' & E & Hh & _ & _ & Ho & _).
  - reflexivity.
  - reflexivity.
  - intros m _. reflexivity.
  - exists w'. split; [exact E|]. split; [exact Hh|exact Ho].
Defined.

(** X5. An image whose setter throws stops the sweep of the content
    script: the images before it in document order were assigned, the
    assignment on it was attempted, the images after it were not reached,
    and no observer is registered, so that nothing added to the page later
    is ever replaced. The script itself completes normally, the last thing
    on the console being the report of the error. *)
Theorem content_sweep_stops_at_fault (urls : list string) (doc : Document)
    (before after : list Node) (n : Node) (e : thrown) (w : World) :
  getElementsByTagName doc "img" = before ++ n :: after ->
  (forall m, m ∈ before -> faults w !! nodeId m = None) ->
  faults w !! nodeId n = Some e ->
  exists w',
    Content.main urls doc w = (Normal tt, w') /\
    history w' = history w
      ++ replaceImage_trace urls (random w) (drawn w) before
      ++ [(nodeId n, Src, pick urls (random w) (drawn w + length before))] /\
    (forall i, i ∉ map nodeId before -> props w' !! i = props w !! i) /\
    observers w' = observers w /\
    last (console w') = Some (report e).
Proof.
  intros Himgs Hf He.
  destruct (content_activation_unfold urls doc w) as (out & _ & E).
  rewrite E. clear E. rewrite Himgs. set (w0 := set_console _ w).
  destruct (forEach_replaceImage_trace urls before w0 Hf)
    as (w1 & E1 & Hf1 & Hr1 & Hd1 & Hc1 & Ho1 & Hh1).
  assert (C : confined (fun i => i ∈ map nodeId before)
                (forEach (Cageify.replaceImage urls) before)).
  { apply confined_forEach. intros m Hm. apply confined_replaceImage.
    apply list_elem_of_fmap. now exists m. }
  destruct (C w0) as (_ & _ & _ & _ & Hp1 & _). rewrite E1 in Hp1. simpl in Hp1.
  assert (E2 : Cageify.replaceImage urls n w1
               = (Throw e, set_history (history w1 ++ [(nodeId n, Src, pick urls (random w1) (drawn w1))])
                             (set_drawn (S (drawn w1)) w1))).
  { unfold Cageify.replaceImage.
    rewrite (bind_normal _ _ _ _ _ (cageify_getRandomCageUrl_eq urls w1)).
    apply (set_attribute_faulty n Src _ (set_drawn (S (drawn w1)) w1) e).
    simpl. now rewrite Hf1. }
  unfold try_catch.
  rewrite (bind_throw _ _ _ _ _ (forEach_throw _ _ _ after _ _ _ _ E1 E2)).
  rewrite content_handler_eq.
  eexists. split; [reflexivity|]. simpl.
  rewrite Hh1, Hr1, Hd1, Ho1. subst w0. simpl.
  split; [now rewrite <- app_assoc|].
  split; [intros i Hi; now apply Hp1|].
  split; [reflexivity|]. apply last_snoc.
Qed.

Lemma content_sweep_stops_at_fault_witness :
  exists w',
    Content.main Sample.urls Sample.page Sample.faulty_world = (Normal tt, w') /\
    observers w' = observers Sample.faulty_world /\
    last (console w')
      = Some (report (ErrorObject "Cannot assign to read only property")).
Proof.
  destruct (content_sweep_stops_at_fault Sample.urls Sample.page [Sample.img 2] []
              (Sample.img 5) (ErrorObject "Cannot assign to read only property")
              Sample.faulty_world) as (w' & E & _ & _ & Ho & Hc).
  - reflexivity.
  - intros m Hm. apply list_elem_of_singleton in Hm. subst m. reflexivity.
  - reflexivity.
  - exists w'. split; [exact E|]. split; [exact Ho|exact Hc].
Defined.

(** ** The two activations side by side *)

Lemma same_page_refl w : same_page w w.
Proof. now repeat split. Qed.

Lemma same_page_sym w1 w2 : same_page w1 w2 -> same_page w2 w1.
Proof. unfold same_page. intuition congruence. Qed.

Lemma same_page_trans w1 w2 w3 : same_page w1 w2 -> same_page w2 w3 -> same_page w1 w3.
Proof. unfold same_page. intuition congruence. Qed.

Lemma same_page_set_console c w : same_page w (set_console c w).
Proof. now repeat split. Qed.

Lemma console_blind_ret {A} (a : A) : console_blind (ret a).
Proof. now intros w1 w2 H. Qed.

Lemma console_blind_bind {A B} (m : M A) (k : A -> M B) :
  console_blind m -> (forall a, console_blind (k a)) -> console_blind (bind m k).
Proof.
  intros Hm Hk w1 w2 H. destruct (Hm w1 w2 H) as [Hc Hw]. unfold bind.
  destruct (m w1) as [[a1|e1] v1], (m w2) as [[a2|e2] v2]; simpl in *;
    try discriminate.
  - inversion Hc; subst. now apply Hk.
  - inversion Hc; subst. now split.
Qed.

Lemma console_blind_forEach {A} (f : A -> M unit) l :
  (forall x, console_blind (f x)) -> console_blind (forEach f l).
Proof.
  intros H. induction l as [|x l IH]; [apply console_blind_ret|].
  apply console_blind_bind; [apply H|now intros _].
Qed.

Lemma console_blind_Math_random : console_blind Math_random.
Proof.
  intros w1 w2 (Hp & Hf & Hr & Hd & Hh & Ho & Hq). unfold Math_random. simpl.
  rewrite Hr, Hd. now repeat split.
Qed.

Lemma console_blind_set_attribute n a v : console_blind (set_attribute n a v).
Proof.
  intros w1 w2 (Hp & Hf & Hr & Hd & Hh & Ho & Hq).
  unfold set_attribute, queue_record, fields_of. simpl. rewrite Hf, Hp, Hh, Ho, Hq.
  destruct (faults w2 !! nodeId n); simpl; [now repeat split|].
  destruct (existsb _ (observers w2)); simpl; now repeat split.
Qed.

Lemma console_blind_observe tgt o : console_blind (observe tgt o).
Proof.
  intros w1 w2 (Hp & Hf & Hr & Hd & Hh & Ho & Hq). unfold observe.
  destruct tgt as [n|]; [|now repeat split].
  destruct (childList o || attributes o || characterData o); simpl;
    [rewrite Ho|]; now repeat split.
Qed.

Lemma console_blind_replaceImage urls n : console_blind (Cageify.replaceImage urls n).
Proof.
  apply console_blind_bind.
  - apply console_blind_bind; [apply console_blind_Math_random|].
    intros r. apply console_blind_ret.
  - intros v. apply console_blind_set_attribute.
Qed.

Lemma cageify_main_unfold urls doc w :
  exists out,
    (out = [] <-> rep_invariant urls = true) /\
    Cageify.main urls doc w =
    bind (forEach (Cageify.replaceImage urls) (getElementsByTagName doc "img"))
         (fun _ => observe (body doc) Content.config)
         (set_console (console w ++ [ConsoleLog [VString "already using typescript"]] ++ out) w).
Proof.
  destruct (cageify_checkRep_prints urls) as (out & P & I).
  exists out. split; [exact I|].
  unfold Cageify.main, Cageify.constructor, Cageify.run.
  unfold bind at 1, console_log at 1. cbv iota beta.
  unfold bind at 1 2. rewrite P. unfold ret. cbv iota beta. simpl console.
  replace (set_console _ (set_console _ w)) with
    (set_console (console w ++ [ConsoleLog [VString "already using typescript"]] ++ out) w).
  - reflexivity.
  - unfold set_console. simpl. now rewrite <- app_assoc.
Qed.

Lemma try_catch_normal {A} (m : M A) h w a w' :
  m w = (Normal a, w') -> try_catch m h w = (Normal a, w').
Proof. intros H. unfold try_catch. now rewrite H. Qed.

Lemma try_catch_throw {A} (m : M A) h w e w' :
  m w = (Throw e, w') -> try_catch m h w = h e w'.
Proof. intros H. unfold try_catch. now rewrite H. Qed.

Lemma activations_agree_from urls doc wc wk :
  same_page wc wk ->
  let sweep := forEach (Cageify.replaceImage urls) (getElementsByTagName doc "img") in
  let rc := try_catch
      (bind sweep
         (fun _ => bind (console_log [VString "Cageify TS replacement complete!"])
                     (fun _ => observe (body doc) Content.config)))
      (Content.handler) wc in
  let rk := bind sweep (fun _ => observe (body doc) Content.config) wk in
  same_page rc.2 rk.2 /\ rc.1 = Normal tt /\
  (forall e, rk.1 = Throw e -> last (console rc.2) = Some (report e)).
Proof.
  intros H0 sweep rc rk.
  assert (B : console_blind sweep).
  { apply console_blind_forEach. intros n. apply console_blind_replaceImage. }
  destruct (B wc wk H0) as [Hc Hw].
  destruct (sweep wc) as [[[]|e1] wc1] eqn:Ec1, (sweep wk) as [[[]|e2] wk1] eqn:Ek1;
    simpl in Hc, Hw; try discriminate.
  - set (wc2 := set_console
             (console wc1 ++ [ConsoleLog [VString "Cageify TS replacement complete!"]]) wc1).
    assert (H2 : same_page wc2 wk1).
    { apply (same_page_trans _ wc1); [apply same_page_sym, same_page_set_console|exact Hw]. }
    destruct (console_blind_observe (body doc) Content.config wc2 wk1 H2) as [Hc3 Hw3].
    assert (Ek : rk = observe (body doc) Content.config wk1).
    { subst rk. now rewrite (bind_normal _ _ _ _ _ Ek1). }
    destruct (observe (body doc) Content.config wc2) as [[[]|e3] wc3] eqn:Ec3,
             (observe (body doc) Content.config wk1) as [[[]|e4] wk3] eqn:Ek3;
      simpl in Hc3, Hw3; try discriminate.
    + assert (Ec : rc = (Normal tt, wc3)).
      { subst rc. apply try_catch_normal. rewrite (bind_normal _ _ _ _ _ Ec1).
        unfold bind, console_log. fold wc2. now rewrite Ec3. }
      rewrite Ec, Ek. simpl. split; [exact Hw3|]. split; [reflexivity|]. discriminate.
    + inversion Hc3; subst e4.
      assert (Ec : rc = (Normal tt, set_console (console wc3 ++ [report e3]) wc3)).
      { subst rc. rewrite <- content_handler_eq. apply try_catch_throw.
        rewrite (bind_normal _ _ _ _ _ Ec1).
        unfold bind, console_log. fold wc2. now rewrite Ec3. }
      rewrite Ec, Ek. simpl. split; [|split; [reflexivity|]].
      * apply (same_page_trans _ wc3); [apply same_page_sym, same_page_set_console|exact Hw3].
      * intros e He. inversion He; subst. apply last_snoc.
  - inversion Hc; subst e2.
    assert (Ec : rc = (Normal tt, set_console (console wc1 ++ [report e1]) wc1)).
    { subst rc. rewrite <- content_handler_eq. apply try_catch_throw.
      now apply bind_throw. }
    assert (Ek : rk = (Throw e1, wk1)). { subst rk. now apply bind_throw. }
    rewrite Ec, Ek. simpl. split; [|split; [reflexivity|]].
    + apply (same_page_trans _ wc1); [apply same_page_sym, same_page_set_console|exact Hw].
    + intros e He. inversion He; subst. apply last_snoc.
Qed.

(** X6. On the same list, document and world the two scripts do the same
    to the page: the same properties of every node, the same draws
    consumed, the same assignments attempted, the same registrations. They
    differ in what they print and in how they end: the content script
    always completes normally; where the class-based script ends in a
    throw, the content script has reported that throw on the console. *)
Theorem activations_agree_on_the_page (urls : list string) (doc : Document) (w : World) :
  same_page (Content.main urls doc w).2 (Cageify.main urls doc w).2 /\
  (Content.main urls doc w).1 = Normal tt /\
  (forall e, (Cageify.main urls doc w).1 = Throw e ->
             last (console (Content.main urls doc w).2) = Some (report e)).
Proof.
  destruct (content_activation_unfold urls doc w) as (outc & _ & Ec).
  destruct (cageify_main_unfold urls doc w) as (outk & _ & Ek).
  rewrite Ec, Ek. clear Ec Ek.
  apply activations_agree_from.
  apply (same_page_trans _ w); [apply same_page_sym|]; apply same_page_set_console.
Qed.

Lemma activations_agree_on_the_page_witness :
  (Cageify.main Sample.urls Sample.early_page Sample.world).1
    = Throw (ErrorObject
        "Failed to execute 'observe' on 'MutationObserver': parameter 1 is not of type 'Node'.") /\
  last (console (Content.main Sample.urls Sample.early_page Sample.world).2)
    = Some (report (ErrorObject
        "Failed to execute 'observe' on 'MutationObserver': parameter 1 is not of type 'Node'.")).
Proof.
  split; [reflexivity|].
  apply (proj2 (proj2 (activations_agree_on_the_page Sample.urls Sample.early_page
                         Sample.world))).
  reflexivity.
Defined.

(** X7. A script started before the document has a body: the sweep is
    done as usual, then [observe] throws. The class-based script ends in
    that throw; the content script catches and reports it. In both cases
    no observer is registered, so images added later are never replaced. *)
Theorem no_body_no_observer (urls : list string) (doc : Document) (w : World) :
  body doc = None ->
  (forall m, m ∈ getElementsByTagName doc "img" -> faults w !! nodeId m = None) ->
  let images := getElementsByTagName doc "img" in
  let error := ErrorObject
    "Failed to execute 'observe' on 'MutationObserver': parameter 1 is not of type 'Node'." in
  (Content.main urls doc w).1 = Normal tt /\
  (Cageify.main urls doc w).1 = Throw error /\
  last (console (Content.main urls doc w).2) = Some (report error) /\
  observers (Content.main urls doc w).2 = observers w /\
  observers (Cageify.main urls doc w).2 = observers w /\
  history (Content.main urls doc w).2
    = history w ++ replaceImage_trace urls (random w) (drawn w) images /\
  history (Cageify.main urls doc w).2
    = history w ++ replaceImage_trace urls (random w) (drawn w) images.
Proof.
  intros Hb Hf images error.
  destruct (content_activation_unfold urls doc w) as (outc & _ & Ec).
  destruct (cageify_main_unfold urls doc w) as (outk & _ & Ek).
  rewrite Ec, Ek. clear Ec Ek. fold images.
  set (wc := set_console _ w). set (wk := set_console _ w).
  destruct (forEach_replaceImage_trace urls images wc Hf)
    as (wc1 & Ec1 & _ & _ & _ & _ & Hoc & Hhc).
  destruct (forEach_replaceImage_trace urls images wk Hf)
    as (wk1 & Ek1 & _ & _ & _ & _ & Hok & Hhk).
  unfold try_catch.
  rewrite (bind_normal _ _ _ _ _ Ec1), (bind_normal _ _ _ _ _ Ek1).
  unfold bind, console_log, observe. rewrite Hb. simpl.
  rewrite Hoc, Hok, Hhc, Hhk. subst wc wk. simpl.
  repeat split. apply last_snoc.
Qed.

Lemma no_body_no_observer_witness :
  (Content.main Sample.urls Sample.early_page Sample.world).1 = Normal tt /\
  observers (Content.main Sample.urls Sample.early_page Sample.world).2 = [].
Proof.
  destruct (no_body_no_observer Sample.urls Sample.early_page Sample.world)
    as (H1 & _ & _ & H2 & _).
  - reflexivity.
  - intros m Hm. inversion Hm.
  - exact (conj H1 H2).
Defined.

(** ** A batch, image by image *)

Lemma forEach_ext {A} (f g : A -> M unit) l w :
  (forall x w, f x w = g x w) -> forEach f l w = forEach g l w.
Proof.
  intros H. revert w. induction l as [|x l IH]; intros w; [reflexivity|].
  simpl. unfold bind. rewrite H. destruct (g x w) as [[[]|e] w1]; [apply IH|reflexivity].
Qed.

Lemma forEach_flat_map {A B} (g : B -> M unit) (h : A -> list B) l w :
  forEach (fun x => forEach g (h x)) l w = forEach g (flat_map h l) w.
Proof.
  revert w. induction l as [|x l IH]; intros w; [reflexivity|].
  simpl. rewrite forEach_app. unfold bind.
  destruct (forEach g (h x) w) as [[[]|e] w1]; [apply IH|reflexivity].
Qed.

Lemma content_observerCallback_flat urls records w :
  Content.observerCallback urls records w
  = forEach (Content.cageifyImage urls) (content_targets records) w.
Proof.
  unfold Content.observerCallback, content_targets.
  rewrite <- forEach_flat_map. apply forEach_ext. intros r v.
  destruct (String.eqb (type r) "childList"); [|reflexivity].
  rewrite <- forEach_flat_map. apply forEach_ext. intros n v'.
  apply content_processNode_forEach.
Qed.

Lemma callback_node_flat urls node w :
  Cageify.callback_node urls node w
  = forEach (Cageify.replaceImage urls) (class_targets node) w.
Proof.
  unfold Cageify.callback_node, class_targets. rewrite forEach_app.
  unfold bind. destruct (String.eqb (nodeName node) "IMG"); simpl.
  - unfold bind. destruct (Cageify.replaceImage urls node w) as [[[]|e] w1]; [|reflexivity].
    now destruct (nodeType node =? ELEMENT_NODE).
  - now destruct (nodeType node =? ELEMENT_NODE).
Qed.

Lemma callback_flat urls records w :
  Cageify.callback urls records w
  = forEach (Cageify.replaceImage urls) (callback_targets records) w.
Proof.
  unfold Cageify.callback, callback_targets.
  rewrite <- forEach_flat_map. apply forEach_ext. intros r v.
  rewrite <- forEach_flat_map. apply forEach_ext. intros n v'.
  apply callback_node_flat.
Qed.

Lemma elem_of_content_targets m records :
  m ∈ content_targets records <->
  exists r n, r ∈ records /\ type r = "childList" /\ n ∈ addedNodes r /\
              m ∈ images_to_replace n.
Proof.
  unfold content_targets. rewrite list_elem_of_In, in_flat_map. split.
  - intros (r & Hr & Hm). destruct (String.eqb_spec (type r) "childList") as [Ht|]; [|easy].
    apply in_flat_map in Hm as (n & Hn & Hm).
    exists r, n. now rewrite !list_elem_of_In.
  - intros (r & n & Hr & Ht & Hn & Hm). rewrite !list_elem_of_In in *.
    exists r. split; [assumption|]. rewrite Ht. simpl. apply in_flat_map. now exists n.
Qed.

Lemma elem_of_callback_targets m records :
  m ∈ callback_targets records <->
  exists r n, r ∈ records /\ n ∈ addedNodes r /\ m ∈ class_targets n.
Proof.
  unfold callback_targets. rewrite list_elem_of_In, in_flat_map. split.
  - intros (r & Hr & Hm). apply in_flat_map in Hm as (n & Hn & Hm).
    exists r, n. now rewrite !list_elem_of_In.
  - intros (r & n & Hr & Hn & Hm). rewrite !list_elem_of_In in *.
    exists r. split; [assumption|]. apply in_flat_map. now exists n.
Qed.

Lemma forEach_cageifyImage_fields urls l : forall w,
  0 < Z.of_nat (length urls) ->
  (forall k, unit_interval (random w k)) ->
  (forall m, m ∈ l -> faults w !! nodeId m = None) ->
  exists w', forEach (Content.cageifyImage urls) l w = (Normal tt, w') /\
    (forall i, i ∉ map nodeId l -> props w' !! i = props w !! i) /\
    (forall i, i ∈ map nodeId l ->
       exists u, u ∈ urls /\ fields_of w' i = mkFields (VString u) (VString "")).
Proof.
  induction l as [|n l IH]; intros w Hn Hr Hf.
  - exists w. repeat split; try reflexivity. intros i Hi. inversion Hi.
  - destruct (content_cageifyImage_ok urls n w) as
      (w1 & E1 & Hp1 & Hf1 & Hr1 & _); [apply Hf; left|].
    destruct (IH w1 Hn) as (w2 & E2 & Hout & Hin).
    { intros k. rewrite Hr1. apply Hr. }
    { intros m Hm. rewrite Hf1. apply Hf. now right. }
    exists w2. split; [simpl; now rewrite (bind_normal _ _ _ _ _ E1)|]. split.
    + intros i Hi. simpl in Hi. apply not_elem_of_cons in Hi as [Hne Hi].
      rewrite (Hout i Hi), Hp1. now apply lookup_insert_ne.
    + intros i Hi. destruct (decide (i ∈ map nodeId l)) as [Hl|Hl]; [now apply Hin|].
      simpl in Hi. apply elem_of_cons in Hi as [->|Hi]; [|contradiction].
      destruct (pick_member urls (random w) (drawn w) Hn (Hr _)) as (u & Hu & Hmem).
      exists u. split; [exact Hmem|].
      unfold fields_of. rewrite (Hout _ Hl), Hp1, lookup_insert_eq. simpl. now rewrite Hu.
Qed.

Lemma length_pos_nonempty (urls : list string) : urls <> [] -> 0 < Z.of_nat (length urls).
Proof. destruct urls; [contradiction|simpl; lia]. Qed.

(** X8. What the callback of the content script does with a batch when
    the list is not empty, the draws are in [0, 1) and no setter of a node
    it replaces throws. It completes normally. Its assignments are those of
    [cageifyImage] on the images of the batch, in the order of the records,
    of their added nodes and of the document, one draw for each image. And
    afterwards every added image, and every image element below an added
    element that is not itself an image, has a member of the list as its
    source and the empty string as its source set. *)
Theorem content_batch_coverage (urls : list string) (records : list MutationRecord)
    (w : World) :
  urls <> [] ->
  (forall k, unit_interval (random w k)) ->
  (forall m, m ∈ content_targets records -> faults w !! nodeId m = None) ->
  exists w',
    Content.observerCallback urls records w = (Normal tt, w') /\
    history w' = history w
      ++ replaceOne_trace urls (random w) (drawn w) (content_targets records) /\
    drawn w' = (drawn w + length (content_targets records))%nat /\
    (forall r n m, r ∈ records -> type r = "childList" -> n ∈ addedNodes r ->
       (m = n /\ nodeName n = "IMG" \/
        nodeName n <> "IMG" /\ nodeType n = ELEMENT_NODE /\ m ∈ querySelectorAll n "img") ->
       exists u, u ∈ urls /\ fields_of w' (nodeId m) = mkFields (VString u) (VString "")).
Proof.
  intros Hn%length_pos_nonempty Hr Hf.
  destruct (content_forEach_cageifyImage_ok urls (content_targets records) w Hf)
    as (w' & E & _ & _ & Hd & _ & _ & Hh).
  destruct (forEach_cageifyImage_fields urls (content_targets records) w Hn Hr Hf)
    as (w'' & E' & _ & Hin).
  rewrite E in E'. inversion E'; subst w''. clear E'.
  exists w'. rewrite content_observerCallback_flat.
  split; [exact E|]. split; [exact Hh|]. split; [exact Hd|].
  intros r n m Hrec Ht Hadd Hm. apply Hin.
  apply list_elem_of_fmap. exists m. split; [reflexivity|].
  apply elem_of_content_targets. exists r, n. repeat split; try assumption.
  destruct Hm as [[-> Hi]|(Hi & He & Hm)].
  - rewrite images_to_replace_image by assumption. left.
  - now rewrite images_to_replace_element.
Qed.

Lemma content_batch_coverage_witness :
  exists w',
    Content.observerCallback Sample.urls
      [mkRecord "childList" 1 [Sample.gallery] []] Sample.world = (Normal tt, w') /\
    exists u, u ∈ Sample.urls /\
      fields_of w' 13%nat = mkFields (VString u) (VString "").
Proof.
  destruct (content_batch_coverage Sample.urls
              [mkRecord "childList" 1 [Sample.gallery] []] Sample.world)
    as (w' & E & _ & _ & H).
  - discriminate.
  - intros k. unfold unit_interval. simpl.
    pose proof (Nat.mod_upper_bound k 4). lia.
  - intros m _. reflexivity.
  - exists w'. split; [exact E|].
    apply (H (mkRecord "childList" 1 [Sample.gallery] []) Sample.gallery (Sample.img 13)).
    + left.
    + reflexivity.
    + left.
    + right. split; [discriminate|]. split; [reflexivity|].
      change (Sample.img 13 ∈ [Sample.img 11; Sample.img 13; Sample.img 15]).
      right. left.
Defined.

(** X9. The same for the callback of the class-based variant, which acts
    on every record whatever its type and has no [else]: its assignments
    are one source assignment for each added node with the image tag,
    followed, for an added element, by one for each image element below it;
    afterwards each of these has a member of the list as its source, and
    every source set is the one it was. *)
Theorem callback_batch_coverage (urls : list string) (records : list MutationRecord)
    (w : World) :
  urls <> [] ->
  (forall k, unit_interval (random w k)) ->
  (forall m, m ∈ callback_targets records -> faults w !! nodeId m = None) ->
  exists w',
    Cageify.callback urls records w = (Normal tt, w') /\
    history w' = history w
      ++ replaceImage_trace urls (random w) (drawn w) (callback_targets records) /\
    drawn w' = (drawn w + length (callback_targets records))%nat /\
    (forall r n m, r ∈ records -> n ∈ addedNodes r ->
       (m = n /\ nodeName n = "IMG" \/
        nodeType n = ELEMENT_NODE /\ m ∈ querySelectorAll n "img") ->
       exists u, u ∈ urls /\ src (fields_of w' (nodeId m)) = VString u) /\
    (forall i, srcset (fields_of w' i) = srcset (fields_of w i)).
Proof.
  intros Hn%length_pos_nonempty Hr Hf.
  destruct (forEach_replaceImage_trace urls (callback_targets records) w Hf)
    as (w' & E & _ & _ & Hd & _ & _ & Hh).
  destruct (forEach_replaceImage_ok urls (callback_targets records) w Hn Hr Hf)
    as (w'' & E' & _ & _ & _ & _ & _ & Hin).
  rewrite E in E'. inversion E'; subst w''. clear E'.
  exists w'. rewrite callback_flat.
  split; [exact E|]. split; [exact Hh|]. split; [exact Hd|]. split.
  - intros r n m Hrec Hadd Hm. apply Hin.
    apply list_elem_of_fmap. exists m. split; [reflexivity|].
    apply elem_of_callback_targets. exists r, n. repeat split; try assumption.
    unfold class_targets. apply elem_of_app.
    destruct Hm as [[-> Hi]|[He Hm]].
    + left. rewrite Hi. left.
    + right. now rewrite He.
  - intros i.
    pose proof (keeps_srcset_forEach (Cageify.replaceImage urls) (callback_targets records)
                  (keeps_srcset_replaceImage urls) w i) as K.
    now rewrite E in K.
Qed.

Lemma callback_batch_coverage_witness :
  exists w',
    Cageify.callback Sample.urls
      [mkRecord "childList" 1 [Sample.nested_img] []] Sample.world = (Normal tt, w') /\
    history w' = [(20%nat, Src, VString "https://a.example/1.jpg");
                  (21%nat, Src, VString "https://a.example/1.jpg")].
Proof.
  destruct (callback_batch_coverage Sample.urls
              [mkRecord "childList" 1 [Sample.nested_img] []] Sample.world)
    as (w' & E & Hh & _).
  - discriminate.
  - intros k. unfold unit_interval. simpl.
    pose proof (Nat.mod_upper_bound k 4). lia.
  - intros m _. reflexivity.
  - exists w'. split; [exact E|exact Hh].
Defined.

(** ** The two callbacks side by side *)

Lemma flat_map_ext_elem {A B} (f g : A -> list B) l :
  (forall x, x ∈ l -> f x = g x) -> flat_map f l = flat_map g l.
Proof.
  induction l as [|x l IH]; intros H; [reflexivity|].
  simpl. rewrite (H x) by left. rewrite IH; [reflexivity|].
  intros y Hy. apply H. now right.
Qed.

Lemma images_to_replace_class_targets n :
  (nodeName n = "IMG" -> nodeType n = ELEMENT_NODE -> querySelectorAll n "img" = []) ->
  images_to_replace n = class_targets n.
Proof.
  intros H. unfold images_to_replace, class_targets.
  destruct (String.eqb_spec (nodeName n) "IMG") as [Hn|Hn]; [|reflexivity].
  destruct (Z.eqb_spec (nodeType n) ELEMENT_NODE) as [Ht|Ht]; [|reflexivity].
  now rewrite (H Hn Ht).
Qed.

Lemma same_sources_replace urls n w1 w2 :
  same_sources w1 w2 ->
  (Content.cageifyImage urls n w1).1 = (Cageify.replaceImage urls n w2).1 /\
  same_sources (Content.cageifyImage urls n w1).2 (Cageify.replaceImage urls n w2).2.
Proof.
  intros (Hs & Hf & Hr & Hd & Ho).
  destruct (faults w1 !! nodeId n) as [e|] eqn:F1.
  - assert (F2 : faults w2 !! nodeId n = Some e) by now rewrite <- Hf.
    unfold Content.cageifyImage, Cageify.replaceImage.
    rewrite (bind_normal _ _ _ _ _ (content_getRandomCageUrl_eq urls w1)).
    rewrite (bind_normal _ _ _ _ _ (cageify_getRandomCageUrl_eq urls w2)).
    rewrite (bind_throw _ _ _ _ _
      (set_attribute_faulty n Src _ (set_drawn (S (drawn w1)) w1) e F1)).
    rewrite (set_attribute_faulty n Src _ (set_drawn (S (drawn w2)) w2) e F2).
    simpl. split; [reflexivity|]. repeat split; simpl; try assumption.
    now rewrite Hd.
  - assert (F2 : faults w2 !! nodeId n = None) by now rewrite <- Hf.
    destruct (content_cageifyImage_ok urls n w1 F1)
      as (v1 & E1 & Hp1 & Hf1 & Hr1 & Hd1 & _ & Ho1 & _).
    destruct (replaceImage_ok urls n w2 F2)
      as (v2 & E2 & Hp2 & Hf2 & Hr2 & Hd2 & _ & Ho2).
    rewrite E1, E2. simpl. split; [reflexivity|].
    repeat split; try congruence.
    intros i. unfold fields_of at 1 2. rewrite Hp1, Hp2.
    destruct (decide (nodeId n = i)) as [<-|Hne].
    + rewrite !lookup_insert_eq. simpl. now rewrite Hr, Hd.
    + rewrite !lookup_insert_ne by assumption. apply Hs.
Qed.

Lemma same_sources_forEach urls l : forall w1 w2,
  same_sources w1 w2 ->
  (forEach (Content.cageifyImage urls) l w1).1 = (forEach (Cageify.replaceImage urls) l w2).1 /\
  same_sources (forEach (Content.cageifyImage urls) l w1).2
               (forEach (Cageify.replaceImage urls) l w2).2.
Proof.
  induction l as [|n l IH]; intros w1 w2 H; [now split|].
  destruct (same_sources_replace urls n w1 w2 H) as [Hc Hw]. simpl. unfold bind.
  destruct (Content.cageifyImage urls n w1) as [[[]|e1] v1],
           (Cageify.replaceImage urls n w2) as [[[]|e2] v2];
    simpl in Hc, Hw; try discriminate.
  - now apply IH.
  - now split.
Qed.

Lemma same_sources_refl w : same_sources w w.
Proof. now repeat split. Qed.

(** X10. On a batch all of whose records are of type [childList], and in
    which no added image element has an image element below it, the two
    callbacks, started in the same world, end alike (both normally, or both
    with the same throw), have consumed the same draws and leave every
    node with the same source. *)
Theorem callbacks_agree_on_sources (urls : list string) (records : list MutationRecord)
    (w : World) :
  (forall r, r ∈ records -> type r = "childList") ->
  (forall r n, r ∈ records -> n ∈ addedNodes r ->
     nodeName n = "IMG" -> nodeType n = ELEMENT_NODE -> querySelectorAll n "img" = []) ->
  let content := Content.observerCallback urls records w in
  let class := Cageify.callback urls records w in
  content.1 = class.1 /\
  (forall i, src (fields_of content.2 i) = src (fields_of class.2 i)) /\
  drawn content.2 = drawn class.2.
Proof.
  intros Ht Hq content class. subst content class.
  rewrite content_observerCallback_flat, callback_flat.
  assert (E : content_targets records = callback_targets records).
  { unfold content_targets, callback_targets. apply flat_map_ext_elem. intros r Hr.
    rewrite (Ht r Hr). simpl. apply flat_map_ext_elem. intros n Hn.
    apply images_to_replace_class_targets. now apply (Hq r n). }
  rewrite E.
  destruct (same_sources_forEach urls (callback_targets records) w w (same_sources_refl w))
    as (Hc & Hs & _ & _ & Hd & _).
  now repeat split.
Qed.

Lemma callbacks_agree_on_sources_witness :
  (Content.observerCallback Sample.urls
     [mkRecord "childList" 1 [Sample.gallery] []] Sample.world).1
  = (Cageify.callback Sample.urls
       [mkRecord "childList" 1 [Sample.gallery] []] Sample.world).1.
Proof.
  apply (callbacks_agree_on_sources Sample.urls
           [mkRecord "childList" 1 [Sample.gallery] []] Sample.world).
  - intros r Hr. apply list_elem_of_singleton in Hr. now subst r.
  - intros r n Hr Hn Hi. apply list_elem_of_singleton in Hr. subst r.
    simpl in Hn. apply list_elem_of_singleton in Hn. now subst n.
Defined.

(** ** A batch that is interrupted *)

(** X12. A throw ends the batch. When a callback ends in a throw on some
    records, it ends in the same throw and the same world with any further
    records behind them: these are not processed, and a node that is only
    added by them keeps its fields. For both callbacks. *)
Theorem throw_ends_the_batch (urls : list string) (rs1 rs2 : list MutationRecord)
    (w : World) (e : thrown) :
  (forall w1, Content.observerCallback urls rs1 w = (Throw e, w1) ->
     Content.observerCallback urls (rs1 ++ rs2) w = (Throw e, w1) /\
     forall i, i ∉ added_ids rs1 ->
       props (Content.observerCallback urls (rs1 ++ rs2) w).2 !! i = props w !! i) /\
  (forall w1, Cageify.callback urls rs1 w = (Throw e, w1) ->
     Cageify.callback urls (rs1 ++ rs2) w = (Throw e, w1) /\
     forall i, i ∉ added_ids rs1 ->
       props (Cageify.callback urls (rs1 ++ rs2) w).2 !! i = props w !! i).
Proof.
  split; intros w1 H.
  - assert (E : Content.observerCallback urls (rs1 ++ rs2) w = (Throw e, w1)).
    { unfold Content.observerCallback in *. rewrite forEach_app.
      now rewrite (bind_throw _ _ _ _ _ H). }
    split; [exact E|]. intros i Hi. rewrite E. simpl.
    destruct (confined_content_observerCallback urls rs1 w) as (_ & _ & _ & _ & Hp & _).
    rewrite H in Hp. now apply Hp.
  - assert (E : Cageify.callback urls (rs1 ++ rs2) w = (Throw e, w1)).
    { unfold Cageify.callback in *. rewrite forEach_app.
      now rewrite (bind_throw _ _ _ _ _ H). }
    split; [exact E|]. intros i Hi. rewrite E. simpl.
    destruct (confined_callback urls rs1 w) as (_ & _ & _ & _ & Hp & _).
    rewrite H in Hp. now apply Hp.
Qed.

(** The late image throws; the gallery behind it in the batch is not
    replaced. *)
Lemma throw_ends_the_batch_witness :
  (Content.observerCallback Sample.urls
     ([mkRecord "childList" 1 [Sample.late_img] []]
        ++ [mkRecord "childList" 1 [Sample.gallery] []]) Sample.hostile_world).1
    = Throw (ErrorObject "Cannot assign to read only property") /\
  props (Content.observerCallback Sample.urls
     ([mkRecord "childList" 1 [Sample.late_img] []]
        ++ [mkRecord "childList" 1 [Sample.gallery] []]) Sample.hostile_world).2 !! 11%nat
    = props Sample.hostile_world !! 11%nat.
Proof.
  destruct (proj1 (throw_ends_the_batch Sample.urls
              [mkRecord "childList" 1 [Sample.late_img] []]
              [mkRecord "childList" 1 [Sample.gallery] []] Sample.hostile_world
              (ErrorObject "Cannot assign to read only property"))
              (Content.observerCallback Sample.urls
                 [mkRecord "childList" 1 [Sample.late_img] []] Sample.hostile_world).2)
    as [E Hp].
  - reflexivity.
  - split; [now rewrite E|]. apply Hp. apply (bool_decide_unpack _). reflexivity.
Defined.

(** ** Source sets and sources after the sweep *)

Lemma keeps_srcset_callback urls records : keeps_srcset (Cageify.callback urls records).
Proof.
  apply keeps_srcset_forEach. intros r. apply keeps_srcset_forEach. intros n.
  apply keeps_srcset_bind.
  - destruct (String.eqb (nodeName n) "IMG");
      [apply keeps_srcset_replaceImage|apply keeps_srcset_ret].
  - intros _. destruct (nodeType n =? ELEMENT_NODE); [|apply keeps_srcset_ret].
    apply keeps_srcset_forEach. intros m. apply keeps_srcset_replaceImage.
Qed.

(** X13. The only code that ever assigns a source set is [cageifyImage],
    which only the callback of the content script calls. The content
    script from its first line to the registration of the observer, the
    whole class-based script and the callback of the class-based variant
    leave the source set of every node as it was, whatever the list, the
    document, the batch and the world. *)
Theorem source_sets_are_kept (urls : list string) (doc : Document)
    (records : list MutationRecord) (w : World) (i : nat) :
  srcset (fields_of (Content.main urls doc w).2 i) = srcset (fields_of w i) /\
  srcset (fields_of (Cageify.main urls doc w).2 i) = srcset (fields_of w i) /\
  srcset (fields_of (Cageify.callback urls records w).2 i) = srcset (fields_of w i).
Proof.
  split; [apply content_main_keeps_srcset|].
  split; [apply cageify_main_keeps_srcset|apply keeps_srcset_callback].
Qed.

(** X14. After either script has run on a document, with a list that is
    not empty, draws in [0, 1) and images whose setters do not throw,
    every image of the document has a member of the list as its source,
    the same member in both scripts. *)
Theorem sweep_coverage (urls : list string) (doc : Document) (w : World) (m : Node) :
  urls <> [] ->
  (forall k, unit_interval (random w k)) ->
  (forall n, n ∈ getElementsByTagName doc "img" -> faults w !! nodeId n = None) ->
  m ∈ getElementsByTagName doc "img" ->
  exists u, u ∈ urls /\
    src (fields_of (Content.main urls doc w).2 (nodeId m)) = VString u /\
    src (fields_of (Cageify.main urls doc w).2 (nodeId m)) = VString u.
Proof.
  intros Hn%length_pos_nonempty Hr Hf Hm.
  destruct (content_sweep_sources urls doc w Hn Hr Hf m Hm) as (u & Hu & Hs).
  exists u. split; [exact Hu|]. split; [exact Hs|]. rewrite <- Hs.
  destruct (content_activation_unfold urls doc w) as (outc & _ & Ec).
  destruct (cageify_main_unfold urls doc w) as (outk & _ & Ek).
  rewrite Ec, Ek.
  destruct (activations_agree_from urls doc
              (set_console (console w ++ [ConsoleLog [VString "Cageify TS Content Script Loaded!"]]
                 ++ outc ++ [ConsoleLog [VString ("Cageify TS found "
                       +:+ pretty (length (getElementsByTagName doc "img"))
                       +:+ " images. Replacing...")]]) w)
              (set_console (console w ++ [ConsoleLog [VString "already using typescript"]]
                 ++ outk) w)) as ((Hp & _) & _).
  { apply (same_page_trans _ w); [apply same_page_sym|]; apply same_page_set_console. }
  unfold fields_of. now rewrite Hp.
Qed.

Lemma sweep_coverage_witness :
  exists u, u ∈ Sample.urls /\
    src (fields_of (Content.main Sample.urls Sample.page Sample.world).2 5%nat) = VString u /\
    src (fields_of (Cageify.main Sample.urls Sample.page Sample.world).2 5%nat) = VString u.
Proof.
  apply (sweep_coverage Sample.urls Sample.page Sample.world (Sample.img 5)).
  - discriminate.
  - intros k. unfold unit_interval. simpl.
    pose proof (Nat.mod_upper_bound k 4). lia.
  - intros n _. reflexivity.
  - change (Sample.img 5 ∈ [Sample.img 2; Sample.img 5]). right. left.
Defined.

(** ** How often a node is replaced *)

Lemma applications_replaceOne_trace urls rnd i l : forall k,
  applications i (replaceOne_trace urls rnd k l)
  = length (List.filter (fun n => (nodeId n =? i)%nat) l).
Proof.
  unfold applications. induction l as [|n l IH]; intros k; [reflexivity|].
  simpl. destruct (nodeId n =? i)%nat; simpl; now rewrite IH.
Qed.

Lemma applications_replaceImage_trace urls rnd i l : forall k,
  applications i (replaceImage_trace urls rnd k l)
  = length (List.filter (fun n => (nodeId n =? i)%nat) l).
Proof.
  unfold applications. induction l as [|n l IH]; intros k; [reflexivity|].
  simpl. destruct (nodeId n =? i)%nat; simpl; now rewrite IH.
Qed.

(** X15. Neither callback remembers what it has replaced: when no setter
    throws, the source of a node is assigned once for each time the node
    comes up in the batch, be it as an added image, be it as an image
    below an added element. An image listed by two records of a batch, or
    added together with an element that was added before it, is replaced
    twice. *)
Theorem replacements_are_counted (urls : list string) (records : list MutationRecord)
    (w : World) (i : nat) :
  (forall m, m ∈ content_targets records -> faults w !! nodeId m = None) ->
  (forall m, m ∈ callback_targets records -> faults w !! nodeId m = None) ->
  applications i (assigned w (Content.observerCallback urls records w).2)
    = length (List.filter (fun n => (nodeId n =? i)%nat) (content_targets records)) /\
  applications i (assigned w (Cageify.callback urls records w).2)
    = length (List.filter (fun n => (nodeId n =? i)%nat) (callback_targets records)).
Proof.
  intros Hc Hk. split.
  - rewrite content_observerCallback_flat.
    destruct (content_forEach_cageifyImage_ok urls (content_targets records) w Hc)
      as (w' & E & _ & _ & _ & _ & _ & Hh).
    rewrite E. simpl. rewrite (assigned_app _ _ _ Hh).
    apply applications_replaceOne_trace.
  - rewrite callback_flat.
    destruct (forEach_replaceImage_trace urls (callback_targets records) w Hk)
      as (w' & E & _ & _ & _ & _ & _ & Hh).
    rewrite E. simpl. rewrite (assigned_app _ _ _ Hh).
    apply applications_replaceImage_trace.
Qed.

(** Image 5 is added to the div, and the div to the body, in one batch. *)
Lemma replacements_are_counted_witness :
  applications 5
    (assigned Sample.world
       (Content.observerCallback Sample.urls
          [mkRecord "childList" 1 [Sample.div 3 [Sample.text 4; Sample.img 5]] [];
           mkRecord "childList" 3 [Sample.img 5] []] Sample.world).2) = 2%nat.
Proof.
  apply (replacements_are_counted Sample.urls
           [mkRecord "childList" 1 [Sample.div 3 [Sample.text 4; Sample.img 5]] [];
            mkRecord "childList" 3 [Sample.img 5] []] Sample.world 5).
  - intros m _. reflexivity.
  - intros m _. reflexivity.
Defined.

(** * The classification of added nodes, in both files *)

(** ** Image elements below a node *)

Lemma Node_Forall_ind (P : Node -> Prop) :
  (forall i nm t cs, Forall P cs -> P (mkNode i nm t cs)) -> forall n, P n.
Proof.
  intros H. fix IH 1. intros [i nm t cs]. apply H.
  induction cs as [|c cs IHcs]; constructor; [apply IH|exact IHcs].
Qed.

Lemma filter_flat_map {A B} (f : B -> bool) (g : A -> list B) l :
  List.filter f (flat_map g l) = flat_map (fun x => List.filter f (g x)) l.
Proof.
  induction l as [|x l IH]; [reflexivity|]. simpl. now rewrite List.filter_app, IH.
Qed.

Lemma filter_inclusive_descendants n :
  List.filter (matches "img") (inclusive_descendants n) = subtree_images n.
Proof.
  induction n as [i nm t cs IH] using Node_Forall_ind.
  change (inclusive_descendants (mkNode i nm t cs))
    with (mkNode i nm t cs :: flat_map inclusive_descendants cs).
  change (subtree_images (mkNode i nm t cs))
    with ((if is_image_element (mkNode i nm t cs) then [mkNode i nm t cs] else [])
          ++ flat_map subtree_images cs).
  simpl List.filter.
  change (matches "img" (mkNode i nm t cs)) with (is_image_element (mkNode i nm t cs)).
  rewrite filter_flat_map.
  replace (flat_map (fun x => List.filter (matches "img") (inclusive_descendants x)) cs)
    with (flat_map subtree_images cs).
  - now destruct (is_image_element (mkNode i nm t cs)).
  - symmetry. apply flat_map_ext_elem. intros c Hc.
    rewrite Forall_forall in IH. now apply IH.
Qed.

(** [querySelectorAll("img")] on a node gives the image elements below it,
    in document order. *)
Lemma querySelectorAll_img node :
  querySelectorAll node "img" = descendant_images node.
Proof.
  unfold querySelectorAll, descendants, descendant_images.
  rewrite filter_flat_map. apply flat_map_ext_elem. intros c _.
  apply filter_inclusive_descendants.
Qed.

Lemma elem_of_flat_map {A B} (f : A -> list B) l y :
  y ∈ flat_map f l <-> exists x, x ∈ l /\ y ∈ f x.
Proof.
  rewrite list_elem_of_In, in_flat_map. split; intros (x & Hx & Hy); exists x;
    now rewrite ?list_elem_of_In in *.
Qed.

Lemma elem_of_subtree_images m n :
  m ∈ subtree_images n <-> (m = n \/ descendant_of m n) /\ is_image_element m = true.
Proof.
  induction n as [i nm t cs IH] using Node_Forall_ind.
  change (subtree_images (mkNode i nm t cs))
    with ((if is_image_element (mkNode i nm t cs) then [mkNode i nm t cs] else [])
          ++ flat_map subtree_images cs).
  rewrite elem_of_app, elem_of_flat_map. rewrite Forall_forall in IH. split.
  - intros [H|(c & Hc & H)].
    + destruct (is_image_element (mkNode i nm t cs)) eqn:E; [|inversion H].
      apply list_elem_of_singleton in H. subst m. now split; [left|].
    + apply (IH c Hc) in H as [[->|H] Hi]; (split; [right|exact Hi]).
      * now apply descendant_child.
      * now apply (descendant_deeper m c).
  - intros [[->|H] Hi].
    + left. rewrite Hi. left.
    + right. inversion H as [n' Hc|c n' Hc Hd]; subst.
      * exists m. split; [exact Hc|]. destruct m as [i' nm' t' cs'].
        change (subtree_images (mkNode i' nm' t' cs'))
          with ((if is_image_element (mkNode i' nm' t' cs') then [mkNode i' nm' t' cs'] else [])
                ++ flat_map subtree_images cs').
        rewrite Hi. left.
      * exists c. split; [exact Hc|]. apply (IH c Hc). now split; [right|].
Qed.

(** The image elements below a node are the image elements among its
    descendants. *)
Lemma elem_of_descendant_images m n :
  m ∈ descendant_images n <-> descendant_of m n /\ is_image_element m = true.
Proof.
  unfold descendant_images. rewrite elem_of_flat_map. split.
  - intros (c & Hc & H). apply elem_of_subtree_images in H as [[->|H] Hi];
      (split; [|exact Hi]).
    + now apply descendant_child.
    + now apply (descendant_deeper m c).
  - intros [H Hi]. inversion H as [n' Hc|c n' Hc Hd]; subst.
    + exists m. split; [exact Hc|]. apply elem_of_subtree_images. now split; [left|].
    + exists c. split; [exact Hc|]. apply elem_of_subtree_images. now split; [right|].
Qed.

(** ** What each replaced image holds afterwards *)

Lemma forEach_cageifyImage_picks urls l : forall w,
  (forall m, m ∈ l -> faults w !! nodeId m = None) ->
  exists w', forEach (Content.cageifyImage urls) l w = (Normal tt, w') /\
    (forall i, i ∉ map nodeId l -> props w' !! i = props w !! i) /\
    (forall m, m ∈ l ->
       exists k, (drawn w <= k < drawn w + length l)%nat /\
         fields_of w' (nodeId m) = mkFields (pick urls (random w) k) (VString "")).
Proof.
  induction l as [|n l IH]; intros w Hf.
  - exists w. repeat split; try reflexivity. intros m Hm. inversion Hm.
  - destruct (content_cageifyImage_ok urls n w) as
      (w1 & E1 & Hp1 & Hf1 & Hr1 & Hd1 & _); [apply Hf; left|].
    destruct (IH w1) as (w2 & E2 & Hout & Hin).
    { intros m Hm. rewrite Hf1. apply Hf. now right. }
    exists w2. split; [simpl; now rewrite (bind_normal _ _ _ _ _ E1)|]. split.
    + intros i Hi. simpl in Hi. apply not_elem_of_cons in Hi as [Hne Hi].
      rewrite (Hout i Hi), Hp1. now apply lookup_insert_ne.
    + intros m Hm. destruct (decide (nodeId m ∈ map nodeId l)) as [Hl|Hl].
      * apply list_elem_of_fmap in Hl as (m' & Hid & Hm').
        destruct (Hin m' Hm') as (k & Hk & Hfld).
        exists k. split; [simpl; lia|]. rewrite Hid, Hfld. now rewrite Hr1.
      * apply elem_of_cons in Hm as [->|Hm].
        -- exists (drawn w). split; [simpl; lia|].
           unfold fields_of. now rewrite (Hout _ Hl), Hp1, lookup_insert_eq.
        -- exfalso. apply Hl. apply list_elem_of_fmap. now exists m.
Qed.

Lemma forEach_replaceImage_picks urls l : forall w,
  (forall m, m ∈ l -> faults w !! nodeId m = None) ->
  exists w', forEach (Cageify.replaceImage urls) l w = (Normal tt, w') /\
    (forall i, i ∉ map nodeId l -> props w' !! i = props w !! i) /\
    (forall m, m ∈ l ->
       exists k, (drawn w <= k < drawn w + length l)%nat /\
         src (fields_of w' (nodeId m)) = pick urls (random w) k).
Proof.
  induction l as [|n l IH]; intros w Hf.
  - exists w. repeat split; try reflexivity. intros m Hm. inversion Hm.
  - destruct (replaceImage_ok urls n w) as
      (w1 & E1 & Hp1 & Hf1 & Hr1 & Hd1 & _); [apply Hf; left|].
    destruct (IH w1) as (w2 & E2 & Hout & Hin).
    { intros m Hm. rewrite Hf1. apply Hf. now right. }
    exists w2. split; [simpl; now rewrite (bind_normal _ _ _ _ _ E1)|]. split.
    + intros i Hi. simpl in Hi. apply not_elem_of_cons in Hi as [Hne Hi].
      rewrite (Hout i Hi), Hp1. now apply lookup_insert_ne.
    + intros m Hm. destruct (decide (nodeId m ∈ map nodeId l)) as [Hl|Hl].
      * apply list_elem_of_fmap in Hl as (m' & Hid & Hm').
        destruct (Hin m' Hm') as (k & Hk & Hfld).
        exists k. split; [simpl; lia|]. rewrite Hid, Hfld. now rewrite Hr1.
      * apply elem_of_cons in Hm as [->|Hm].
        -- exists (drawn w). split; [simpl; lia|].
           unfold fields_of. now rewrite (Hout _ Hl), Hp1, lookup_insert_eq.
        -- exfalso. apply Hl. apply list_elem_of_fmap. now exists m.
Qed.

Lemma images_to_replace_spec node :
  images_to_replace node =
  if String.eqb (nodeName node) "IMG" then [node]
  else if nodeType node =? ELEMENT_NODE then descendant_images node else [].
Proof. unfold images_to_replace. now rewrite <- querySelectorAll_img. Qed.

Lemma class_targets_spec node :
  class_targets node =
  (if String.eqb (nodeName node) "IMG" then [node] else [])
  ++ (if nodeType node =? ELEMENT_NODE then descendant_images node else []).
Proof. unfold class_targets. now rewrite <- querySelectorAll_img. Qed.

(** C1, as amended. When no setter throws, an added node is treated as
    follows. [processNode] of the content script takes exactly one of
    three ways: a node whose [nodeName] is the image tag is replaced
    itself; otherwise, an element has every image element below it
    replaced, in document order; otherwise nothing changes. Replacing is
    [replaceOne]: a picked identifier to the source field, then the empty
    string to the source-set field, and the replaced image holds these
    afterwards. The callback of the class-based variant has two separate
    tests: a node with the image tag is replaced, and then, if the node is
    an element, every image element below it, in document order; its
    replacing assigns the picked identifier to the source field and leaves
    every source set as it was. In both, a node that is not replaced keeps
    its fields. *)
Theorem added_node_classification (urls : list string) (node : Node) (w : World) :
  (forall i, faults w !! i = None) ->
  (forall m, m ∈ descendant_images node <->
             descendant_of m node /\ is_image_element m = true) /\
  (let targets :=
     if String.eqb (nodeName node) "IMG" then [node]
     else if nodeType node =? ELEMENT_NODE then descendant_images node
     else [] in
   exists w',
     Content.processNode urls node w = (Normal tt, w') /\
     assigned w w' = replaceOne_trace urls (random w) (drawn w) targets /\
     (forall m, m ∈ targets ->
        exists k, (drawn w <= k < drawn w + length targets)%nat /\
          fields_of w' (nodeId m) = mkFields (pick urls (random w) k) (VString "")) /\
     (forall i, i ∉ map nodeId targets -> props w' !! i = props w !! i) /\
     (targets = [] -> w' = w)) /\
  (let targets :=
     (if String.eqb (nodeName node) "IMG" then [node] else [])
     ++ (if nodeType node =? ELEMENT_NODE then descendant_images node else []) in
   exists w',
     Cageify.callback_node urls node w = (Normal tt, w') /\
     assigned w w' = replaceImage_trace urls (random w) (drawn w) targets /\
     (forall m, m ∈ targets ->
        exists k, (drawn w <= k < drawn w + length targets)%nat /\
          src (fields_of w' (nodeId m)) = pick urls (random w) k) /\
     (forall i, srcset (fields_of w' i) = srcset (fields_of w i)) /\
     (forall i, i ∉ map nodeId targets -> props w' !! i = props w !! i)).
Proof.
  intros Hf. split; [intros m; apply elem_of_descendant_images|]. split.
  - rewrite <- images_to_replace_spec. cbv zeta.
    destruct (content_forEach_cageifyImage_ok urls (images_to_replace node) w)
      as (w' & E & _ & _ & _ & _ & _ & Hh); [intros m _; apply Hf|].
    destruct (forEach_cageifyImage_picks urls (images_to_replace node) w)
      as (w'' & E' & Hout & Hin); [intros m _; apply Hf|].
    rewrite E in E'. inversion E'; subst w''. clear E'.
    exists w'. rewrite content_processNode_forEach.
    split; [exact E|]. split; [now apply assigned_app|].
    split; [exact Hin|]. split; [exact Hout|].
    intros E0. rewrite E0 in E. simpl in E. now inversion E.
  - rewrite <- class_targets_spec. cbv zeta.
    destruct (forEach_replaceImage_trace urls (class_targets node) w)
      as (w' & E & _ & _ & _ & _ & _ & Hh); [intros m _; apply Hf|].
    destruct (forEach_replaceImage_picks urls (class_targets node) w)
      as (w'' & E' & Hout & Hin); [intros m _; apply Hf|].
    rewrite E in E'. inversion E'; subst w''. clear E'.
    exists w'. rewrite callback_node_flat.
    split; [exact E|]. split; [now apply assigned_app|].
    split; [exact Hin|]. split; [|exact Hout].
    intros i.
    pose proof (keeps_srcset_forEach (Cageify.replaceImage urls) (class_targets node)
                  (keeps_srcset_replaceImage urls) w i) as K.
    now rewrite E in K.
Qed.

(** A gallery is added: its three images are replaced in document order,
    and image 13 then holds a picked identifier and no source set. *)
Lemma added_node_classification_witness :
  exists w',
    Content.processNode Sample.urls Sample.gallery Sample.world = (Normal tt, w') /\
    map (fun e => e.1.1) (assigned Sample.world w') = [11; 11; 13; 13; 15; 15]%nat /\
    exists k, fields_of w' 13%nat
              = mkFields (pick Sample.urls (random Sample.world) k) (VString "").
Proof.
  destruct (added_node_classification Sample.urls Sample.gallery Sample.world)
    as (_ & (w' & E & Ha & Hfld & _) & _).
  - intros i. reflexivity.
  - exists w'. split; [exact E|]. split; [now rewrite Ha|].
    destruct (Hfld (Sample.img 13)) as (k & _ & Hk).
    + change (Sample.img 13 ∈ [Sample.img 11; Sample.img 13; Sample.img 15]).
      right. left.
    + now exists k.
Defined.

(** C1, as stated, fails for the callback of the class-based variant: an
    added image keeps its source set, so what is applied to it is not
    [replaceOne]; and an added image element with an image element below
    it is treated in two of the three ways, itself replaced and the image
    below it replaced. *)
Lemma class_callback_is_not_three_ways :
  let one := (Cageify.callback Sample.urls
                [mkRecord "childList" 1 [Sample.img 2] []] Sample.world).2 in
  let two := (Cageify.callback Sample.urls
                [mkRecord "childList" 1 [Sample.nested_img] []] Sample.world).2 in
  fields_of one 2%nat
    = mkFields (VString "https://a.example/1.jpg") (VString "a-2x.png 2x") /\
  srcset (fields_of one 2%nat) <> VString "" /\
  assigned Sample.world one
    <> replaceOne_trace Sample.urls (random Sample.world) (drawn Sample.world) [Sample.img 2] /\
  nodeName Sample.nested_img = "IMG" /\
  map (fun e => e.1.1) (assigned Sample.world two) = [20; 21]%nat.
Proof. cbv zeta. repeat split; discriminate. Qed.

(** ** How often an added image element is replaced *)

Lemma flat_map_flat_map {A B C} (f : B -> list C) (g : A -> list B) l :
  flat_map f (flat_map g l) = flat_map (fun x => flat_map f (g x)) l.
Proof.
  induction l as [|x l IH]; [reflexivity|]. simpl. now rewrite flat_map_app, IH.
Qed.

Lemma count_class_targets i l :
  length (List.filter (fun m => (nodeId m =? i)%nat) (flat_map class_targets l))
  = (length (List.filter (fun n => String.eqb (nodeName n) "IMG" && (nodeId n =? i)%nat) l)
     + length (List.filter (fun m => (nodeId m =? i)%nat)
                 (flat_map (fun n => if (nodeType n =? ELEMENT_NODE)%Z
                                     then descendant_images n else []) l)))%nat.
Proof.
  induction l as [|n l IH]; [reflexivity|].
  simpl flat_map. rewrite class_targets_spec, !List.filter_app, !length_app, IH.
  simpl List.filter.
  destruct (String.eqb (nodeName n) "IMG"); simpl;
    [destruct (nodeId n =? i)%nat; simpl|]; lia.
Qed.

Lemma count_callback_targets i records :
  length (List.filter (fun m => (nodeId m =? i)%nat) (callback_targets records))
  = (times_listed i records + times_below i records)%nat.
Proof.
  unfold callback_targets, times_listed, times_below.
  rewrite <- flat_map_flat_map. apply count_class_targets.
Qed.

(** C9, as amended. In the callback of the class-based variant the image
    test and the element test are two separate [if]s, so an added image
    element goes through both: [replaceImage] on it, then [replaceImage]
    on each image element below it. It is never among the image elements
    below it, so each time it is listed as an added node its source is
    assigned exactly once (whether or not a setter throws). Over a whole
    delivery, when no setter throws, its source is assigned once for each
    time it is listed as an added node and once for each time it lies
    below an added element: exactly once only when the delivery lists it
    once and does not also add an element it lies below. *)
Theorem image_element_replacements (urls : list string) (records : list MutationRecord)
    (node : Node) (w : World) :
  nodeName node = "IMG" ->
  nodeType node = ELEMENT_NODE ->
  NoDup (map nodeId (inclusive_descendants node)) ->
  (forall i, faults w !! i = None) ->
  (forall v, Cageify.callback_node urls node v =
     bind (Cageify.replaceImage urls node)
          (fun _ => forEach (Cageify.replaceImage urls) (descendant_images node)) v) /\
  (nodeId node ∉ map nodeId (descendant_images node)) /\
  (forall v, applications (nodeId node)
               (assigned v (Cageify.callback_node urls node v).2) = 1%nat) /\
  applications (nodeId node) (assigned w (Cageify.callback urls records w).2)
    = (times_listed (nodeId node) records + times_below (nodeId node) records)%nat /\
  (times_listed (nodeId node) records = 1%nat ->
   times_below (nodeId node) records = 0%nat ->
   applications (nodeId node) (assigned w (Cageify.callback urls records w).2) = 1%nat).
Proof.
  intros Hn Ht Hd Hf.
  assert (B : applications (nodeId node) (assigned w (Cageify.callback urls records w).2)
              = (times_listed (nodeId node) records
                 + times_below (nodeId node) records)%nat).
  { rewrite callback_flat.
    destruct (forEach_replaceImage_trace urls (callback_targets records) w)
      as (w' & E & _ & _ & _ & _ & _ & Hh); [intros m _; apply Hf|].
    rewrite E. simpl. rewrite (assigned_app _ _ _ Hh).
    rewrite applications_replaceImage_trace. apply count_callback_targets. }
  split; [|split; [|split; [|split]]].
  - intros v. rewrite <- querySelectorAll_img. now apply callback_node_image.
  - rewrite <- querySelectorAll_img. now apply querySelectorAll_not_self.
  - intros v. now apply callback_node_image_once.
  - exact B.
  - intros H1 H0. rewrite B, H1, H0. reflexivity.
Qed.

(** An image element with an image below it is added, once. *)
Lemma image_element_replacements_witness :
  applications 20
    (assigned Sample.world
       (Cageify.callback Sample.urls
          [mkRecord "childList" 1 [Sample.nested_img] []] Sample.world).2) = 1%nat.
Proof.
  destruct (image_element_replacements Sample.urls
              [mkRecord "childList" 1 [Sample.nested_img] []] Sample.nested_img
              Sample.world) as (_ & _ & _ & _ & H).
  - reflexivity.
  - reflexivity.
  - apply (bool_decide_unpack _). reflexivity.
  - intros i. reflexivity.
  - apply H; reflexivity.
Defined.

(** C9, as stated, fails: a delivery that lists an image element twice,
    or that lists it and the element it was added to, replaces it twice. *)
Lemma image_replaced_twice_in_one_delivery :
  applications 2
    (assigned Sample.world
       (Cageify.callback Sample.urls
          [mkRecord "childList" 1 [Sample.img 2] [];
           mkRecord "childList" 1 [] [Sample.img 2];
           mkRecord "childList" 1 [Sample.img 2] []] Sample.world).2) = 2%nat /\
  applications 5
    (assigned Sample.world
       (Cageify.callback Sample.urls
          [mkRecord "childList" 1 [Sample.div 3 [Sample.text 4; Sample.img 5]] [];
           mkRecord "childList" 3 [Sample.img 5] []] Sample.world).2) = 2%nat.
Proof. split; reflexivity. Qed.

(** ** The index and the exact product *)



